(** * Incremental Structure-from-Motion (SFM.py): a shallow embedding

    The pipeline of [SFM.py] computes on NumPy arrays of floating-point
    numbers.  The embedding idealises every float as a real number ([R]):
    rounding, NaN and infinities are outside the model, and every statement
    below is a statement about the arithmetic the code writes down, read over
    the reals.  Arrays of points are lists of tuples, one tuple per point;
    where the source only changes the memory layout of such an array
    ([.T], [reshape], [[:,0,:]]) the list is left as it is.

    Operations of OpenCV and SciPy are not part of the repository.  They are
    the fields of the record [Vision]; every function that calls one takes
    the record as a parameter, so the theorems hold for every behaviour of
    those libraries, failures included ([option]). *)

From Stdlib Require Import Reals Lra Lia List Bool Arith PeanoNat Sorted Ascii.
Import ListNotations.

Local Open Scope R_scope.

(** ** Numbers, points and small matrices *)

Definition pt2 : Type := (R * R)%type.
Definition pt3 : Type := (R * R * R)%type.
Definition pt4 : Type := (R * R * R * R)%type.
(** A 3x3 matrix is the triple of its rows; a 3x4 matrix likewise. *)
Definition mat3 : Type := (pt3 * pt3 * pt3)%type.
Definition mat34 : Type := (pt4 * pt4 * pt4)%type.

Definition Rltb (a b : R) : bool := if Rlt_dec a b then true else false.
Definition Reqb (a b : R) : bool := if Req_dec_T a b then true else false.

Definition sq (x : R) : R := x * x.

Definition add3 (a b : pt3) : pt3 :=
  let '(a1, a2, a3) := a in let '(b1, b2, b3) := b in (a1 + b1, a2 + b2, a3 + b3).
Definition sub3 (a b : pt3) : pt3 :=
  let '(a1, a2, a3) := a in let '(b1, b2, b3) := b in (a1 - b1, a2 - b2, a3 - b3).
Definition scale3 (c : R) (a : pt3) : pt3 :=
  let '(a1, a2, a3) := a in (a1 * c, a2 * c, a3 * c).
Definition div3 (a : pt3) (c : R) : pt3 :=
  let '(a1, a2, a3) := a in (a1 / c, a2 / c, a3 / c).
Definition dot3 (a b : pt3) : R :=
  let '(a1, a2, a3) := a in let '(b1, b2, b3) := b in a1 * b1 + a2 * b2 + a3 * b3.

Definition transpose3 (m : mat3) : mat3 :=
  let '((a11, a12, a13), (a21, a22, a23), (a31, a32, a33)) := m in
  ((a11, a21, a31), (a12, a22, a32), (a13, a23, a33)).

(** [np.matmul] of a 3x3 matrix with a vector and with a 3x3 matrix. *)
Definition matvec3 (m : mat3) (v : pt3) : pt3 :=
  let '(r1, r2, r3) := m in (dot3 r1 v, dot3 r2 v, dot3 r3 v).
Definition matmul3 (a b : mat3) : mat3 :=
  let '(r1, r2, r3) := a in
  let '(c1, c2, c3) := transpose3 b in
  ((dot3 r1 c1, dot3 r1 c2, dot3 r1 c3),
   (dot3 r2 c1, dot3 r2 c2, dot3 r2 c3),
   (dot3 r3 c1, dot3 r3 c2, dot3 r3 c3)).

(** [m[:3,:3]], [m[:3,3]] and [np.hstack((rot, tran))] on a 3x4 matrix. *)
Definition rot_part (m : mat34) : mat3 :=
  let '((a11, a12, a13, _), (a21, a22, a23, _), (a31, a32, a33, _)) := m in
  ((a11, a12, a13), (a21, a22, a23), (a31, a32, a33)).
Definition tran_part (m : mat34) : pt3 :=
  let '((_, _, _, t1), (_, _, _, t2), (_, _, _, t3)) := m in (t1, t2, t3).
Definition hstack_Rt (rot : mat3) (tran : pt3) : mat34 :=
  let '((a11, a12, a13), (a21, a22, a23), (a31, a32, a33)) := rot in
  let '(t1, t2, t3) := tran in
  ((a11, a12, a13, t1), (a21, a22, a23, t2), (a31, a32, a33, t3)).

(** [np.matmul(K, transform_matrix)]: 3x3 times 3x4. *)
Definition matmul34 (k : mat3) (m : mat34) : mat34 :=
  hstack_Rt (matmul3 k (rot_part m)) (matvec3 k (tran_part m)).

Definition identity3 : mat3 := ((1, 0, 0), (0, 1, 0), (0, 0, 1)).
Definition zero3 : pt3 := (0, 0, 0).

Definition ravel3 (m : mat3) : list R :=
  let '((a11, a12, a13), (a21, a22, a23), (a31, a32, a33)) := m in
  [a11; a12; a13; a21; a22; a23; a31; a32; a33].
Definition ravel34 (m : mat34) : list R :=
  let '((a11, a12, a13, a14), (a21, a22, a23, a24), (a31, a32, a33, a34)) := m in
  [a11; a12; a13; a14; a21; a22; a23; a24; a31; a32; a33; a34].

(** ** A small error monad: [None] is a raised Python exception *)

Definition bind {A B : Type} (c : option A) (k : A -> option B) : option B :=
  match c with Some a => k a | None => None end.

Notation "x <- c ;; k" := (bind c (fun x => k))
  (at level 61, c at next level, right associativity).
Notation "' p <- c ;; k" := (bind c (fun p => k))
  (at level 61, p pattern, c at next level, right associativity).

(** ** NumPy indexing *)

(** [np.where(m)[0]] on a one-dimensional boolean array: the positions of the
    true entries, in increasing order. *)
Fixpoint where_from (k : nat) (m : list bool) : list nat :=
  match m with
  | [] => []
  | b :: m' => (if b then [k] else []) ++ where_from (S k) m'
  end.
Definition np_where (m : list bool) : list nat := where_from 0 m.

(** [np.where(m)[0]] on an N x 2 boolean array: the row index of every true
    entry in row-major order, so a row with two true entries is listed
    twice. *)
Fixpoint where_rows_from (k : nat) (m : list (bool * bool)) : list nat :=
  match m with
  | [] => []
  | (a, b) :: m' =>
      (if a then [k] else []) ++ (if b then [k] else []) ++ where_rows_from (S k) m'
  end.
Definition np_where_rows (m : list (bool * bool)) : list nat := where_rows_from 0 m.

(** [l[idx]] with an integer index array: one row per index; an index out of
    range raises [IndexError]. *)
Fixpoint take {A : Type} (l : list A) (idx : list nat) : option (list A) :=
  match idx with
  | [] => Some []
  | i :: idx' =>
      x <- nth_error l i ;;
      r <- take l idx' ;;
      Some (x :: r)
  end.

(** [l[np.array(idx)]] where [idx] is a Python list: [np.array([])] has a
    floating dtype and is refused as an index ([IndexError]). *)
Definition take_array {A : Type} (l : list A) (idx : list nat) : option (list A) :=
  match idx with
  | [] => None
  | _ => take l idx
  end.

(** [l[m]] with a boolean mask of the same length. *)
Fixpoint compress {A : Type} (m : list bool) (l : list A) : option (list A) :=
  match m, l with
  | [], [] => Some []
  | b :: m', x :: l' =>
      r <- compress m' l' ;;
      Some (if b then x :: r else r)
  | _, _ => None
  end.

(** [l[i] = v] for one row. *)
Fixpoint set_row {A : Type} (l : list A) (i : nat) (v : A) : option (list A) :=
  match l, i with
  | [], _ => None
  | _ :: l', O => Some (v :: l')
  | x :: l', S i' => r <- set_row l' i' v ;; Some (x :: r)
  end.

(** [l[idx] = v] with a list of row indices. *)
Fixpoint set_rows {A : Type} (l : list A) (idx : list nat) (v : A) : option (list A) :=
  match idx with
  | [] => Some l
  | i :: idx' => l' <- set_row l i v ;; set_rows l' idx' v
  end.

(** Membership of a row index in an index list. *)
Definition mem (j : nat) (idx : list nat) : bool := existsb (Nat.eqb j) idx.

(** ** Track linker: [StructurefromMotion.find_common_points] *)

(** [image_points_2 == image_points_1[i, :]]: the row is broadcast against
    every row of the array and compared entry by entry. *)
Definition eq_broadcast (pts : list pt2) (p : pt2) : list (bool * bool) :=
  map (fun q => (Reqb (fst q) (fst p), Reqb (snd q) (snd p))) pts.

(** The [for i in range(image_points_1.shape[0])] loop, started at row [i]:
    [a[0]] is [np_where_rows], [a[0].size != 0] its being non-empty and
    [a[0][0]] its head. *)
Fixpoint common_loop (i : nat) (image_points_1 image_points_2 : list pt2)
  : list nat * list nat :=
  match image_points_1 with
  | [] => ([], [])
  | p :: rest =>
      let a0 := np_where_rows (eq_broadcast image_points_2 p) in
      let '(cm_points_1, cm_points_2) := common_loop (S i) rest image_points_2 in
      match a0 with
      | [] => (cm_points_1, cm_points_2)
      | j :: _ => (i :: cm_points_1, j :: cm_points_2)
      end
  end.

(** [np.ma.array(pts, mask=False)]: one mask entry per array entry. *)
Definition mask_false (pts : list pt2) : list (bool * bool) :=
  map (fun _ => (false, false)) pts.

(** [.compressed()]: the unmasked entries as a flat array. *)
Fixpoint compressed (pts : list pt2) (mask : list (bool * bool)) : list R :=
  match pts, mask with
  | (x, y) :: pts', (mx, my) :: mask' =>
      (if mx then [] else [x]) ++ (if my then [] else [y]) ++ compressed pts' mask'
  | _, _ => []
  end.

(** [.reshape(int(n / 2), 2)] of a flat array of [n] entries; an odd [n]
    raises [ValueError]. *)
Fixpoint reshape2 (l : list R) : option (list pt2) :=
  match l with
  | [] => Some []
  | x :: y :: l' => r <- reshape2 l' ;; Some ((x, y) :: r)
  | _ => None
  end.

(** Lines 219-222 and 224-227: mask the rows listed in [cm_points_2] and keep
    the rest. *)
Definition mask_rows (pts : list pt2) (cm_points_2 : list nat)
  : option (list (bool * bool)) :=
  set_rows (mask_false pts) cm_points_2 (true, true).

Definition masked_rest (pts : list pt2) (cm_points_2 : list nat) : option (list pt2) :=
  mask <- mask_rows pts cm_points_2 ;;
  reshape2 (compressed pts mask).

Definition find_common_points (image_points_1 image_points_2 image_points_3 : list pt2)
  : option (list nat * list nat * list pt2 * list pt2) :=
  let '(cm_points_1, cm_points_2) := common_loop 0 image_points_1 image_points_2 in
  mask_array_1 <- masked_rest image_points_2 cm_points_2 ;;
  mask_array_2 <- masked_rest image_points_3 cm_points_2 ;;
  Some (cm_points_1, cm_points_2, mask_array_1, mask_array_2).

(** The rows of the shared-view array that stay unmasked: the indices of the
    observations returned as novel. *)
Definition unmasked (mask : list (bool * bool)) : list nat :=
  np_where (map (fun m => negb (fst m) && negb (snd m)) mask).

Definition novel_indices (image_points_2 : list pt2) (cm_points_2 : list nat) : list nat :=
  match mask_rows image_points_2 cm_points_2 with
  | Some mask => unmasked mask
  | None => []
  end.

(** ** Intrinsics: [ImageLoader.downscale_instrinsics] *)

(** [K[0,0] /= factor; K[1,1] /= factor; K[0,2] /= factor; K[1,2] /= factor]. *)
Definition downscale_instrinsics (K : mat3) (factor : R) : mat3 :=
  let '((k00, k01, k02), (k10, k11, k12), (k20, k21, k22)) := K in
  ((k00 / factor, k01, k02 / factor), (k10, k11 / factor, k12 / factor), (k20, k21, k22)).

(** Entry [K[i,j]]; an index outside the matrix reads as 0. *)
Definition entry3 (K : mat3) (i j : nat) : R := nth (3 * i + j) (ravel3 K) 0.

(** The entries written by [downscale_instrinsics]: [K[0,0]], [K[1,1]],
    [K[0,2]] and [K[1,2]]. *)
Definition scaled_entry (i j : nat) : bool :=
  match i, j with
  | 0, 0 | 1, 1 | 0, 2 | 1, 2 => true
  | _, _ => false
  end%nat.

(** ** Exporter: the numeric part of [StructurefromMotion.save_to_ply] *)

(** A row of [verts]: [x y z] and [b g r]. *)
Definition vert : Type := (pt3 * pt3)%type.

(** A row of [verts] with its point scaled; the colour is kept. *)
Definition scale_vert (c : R) (v : vert) : vert := (scale3 c (fst v), snd v).

Definition sum_R (l : list R) : R := fold_right Rplus 0 l.
(** [np.mean] of a flat array. *)
Definition mean_R (l : list R) : R := sum_R l / INR (length l).
(** [np.mean(_, axis=0)] of an N x 3 array. *)
Definition mean_axis0 (l : list pt3) : pt3 := div3 (fold_right add3 zero3 l) (INR (length l)).

(** [np.sqrt(v[:,0]**2 + v[:,1]**2 + v[:,2]**2)] for one row. *)
Definition norm3 (v : pt3) : R := let '(x, y, z) := v in sqrt (sq x + sq y + sq z).

(** [np.hstack([out_points, out_colors])]: both arrays need the same number
    of rows. *)
Definition hstack_verts (out_points out_colors : list pt3) : option (list vert) :=
  if Nat.eqb (length out_points) (length out_colors)
  then Some (combine out_points out_colors) else None.

(** Distance of every row of [verts] to the mean row (lines 355-357). *)
Definition centroid_dist (verts : list vert) : list R :=
  let mean := mean_axis0 (map fst verts) in
  let scaled_verts := map (fun v => sub3 (fst v) mean) verts in
  map norm3 scaled_verts.

(** Lines 355-359: the centroid-distance filter on the rows of [verts]. *)
Definition outlier_filter (verts : list vert) : option (list vert) :=
  let dist := centroid_dist verts in
  let indx := np_where (map (fun d => Rltb d (mean_R dist + 300)) dist) in
  take verts indx.

(** Lines 350-359 and the vertex count of the header: what is written to the
    file, as (number of vertices, rows). *)
Definition save_to_ply (point_cloud colors : list pt3) : option (nat * list vert) :=
  let out_points := map (scale3 200) point_cloud in
  let out_colors := colors in
  verts <- hstack_verts out_points out_colors ;;
  verts <- outlier_filter verts ;;
  Some (length verts, verts).

(** The finalization as the specification words it: filter the unscaled
    points, dropping those whose distance exceeds mean + 300, then scale the
    survivors by 200. *)
Definition spec_outlier_filter (verts : list vert) : list vert :=
  let dist := centroid_dist verts in
  let threshold := mean_R dist + 300 in
  map snd (filter (fun dv => negb (Rltb threshold (fst dv))) (combine dist verts)).

Definition spec_save_to_ply (point_cloud colors : list pt3) : option (nat * list vert) :=
  verts <- hstack_verts point_cloud colors ;;
  let kept := spec_outlier_filter verts in
  let scaled := map (scale_vert 200) kept in
  Some (length scaled, scaled).

(** Three small clouds on the first axis, with black as every colour. *)
Definition cloud_9 : list pt3 := [(0, 0, 0); (0, 0, 0); (9, 0, 0)].
Definition cloud_1350 : list pt3 := [(0, 0, 0); (0, 0, 0); (1350, 0, 0)].
Definition black_3 : list pt3 := [zero3; zero3; zero3].

(** ** The image list of [ImageLoader.__init__]

    File names are lists of one-byte characters. *)

(** [str.lower] on one character: the letters [A]-[Z] are moved to [a]-[z]. *)
Definition lower_char (c : ascii) : ascii :=
  let n := nat_of_ascii c in
  if ((65 <=? n) && (n <=? 90))%nat then ascii_of_nat (n + 32) else c.

Definition lower (s : list ascii) : list ascii := map lower_char s.

(** [s[-n:]] for a positive [n]: the last [n] characters, the whole of a
    shorter [s]. *)
Definition last_chars (n : nat) (s : list ascii) : list ascii :=
  skipn (length s - n) s.

Definition chars_eqb (a b : list ascii) : bool :=
  if list_eq_dec ascii_dec a b then true else false.

Definition dot_jpg : list ascii := ["."; "j"; "p"; "g"]%char.
Definition dot_png : list ascii := ["."; "p"; "n"; "g"]%char.

(** [image[-4:].lower() == '.jpg' or image[-5:].lower() == '.png']. *)
Definition is_image_name (image : list ascii) : bool :=
  chars_eqb (lower (last_chars 4 image)) dot_jpg
  || chars_eqb (lower (last_chars 5 image)) dot_png.

(** The loop of lines 40-42 over [listing], the sorted directory listing;
    character 92 is the backslash. *)
Definition image_paths (img_dir : list ascii) (listing : list (list ascii))
  : list (list ascii) :=
  map (fun image => img_dir ++ [ascii_of_nat 92] ++ image)
      (filter is_image_name listing).

(** ** External capabilities: OpenCV and SciPy *)

(** [cv2.DMatch]. *)
Record DMatch : Type := mkDMatch { distance : R; queryIdx : nat; trainIdx : nat }.

Record Vision : Type := mkVision {
  Image : Type;
  Descriptors : Type;
  (** [cv2.pyrDown] *)
  pyrDown : Image -> Image;
  (** [sift.detectAndCompute(cv2.cvtColor(image, COLOR_BGR2GRAY), None)]:
      the [.pt] of every key point, and the descriptors *)
  detectAndCompute : Image -> list pt2 * Descriptors;
  (** [cv2.BFMatcher().knnMatch(d0, d1, k=2)] *)
  knnMatch : Descriptors -> Descriptors -> list (list DMatch);
  (** [cv2.findEssentialMat(f0, f1, K, RANSAC, 0.999, 0.4)]: matrix and mask *)
  findEssentialMat : list pt2 -> list pt2 -> mat3 -> option (mat3 * list nat);
  (** [cv2.recoverPose(E, f0, f1, K)]: rotation, translation and mask *)
  recoverPose : mat3 -> list pt2 -> list pt2 -> mat3 -> option (mat3 * pt3 * list nat);
  (** [cv2.triangulatePoints(P1, P2, pts1, pts2)]: one homogeneous point per
      correspondence *)
  triangulatePoints : mat34 -> mat34 -> list pt2 -> list pt2 -> option (list pt4);
  (** [cv2.solvePnPRansac(obj, img, K, dist, SOLVEPNP_ITERATIVE)]: rotation
      vector, translation and the inlier indices, which may be [None] *)
  solvePnPRansac :
    list pt3 -> list pt2 -> mat3 -> list R -> option (pt3 * pt3 * option (list nat));
  (** [cv2.Rodrigues] on a rotation vector and on a rotation matrix *)
  Rodrigues_vector : pt3 -> mat3;
  Rodrigues_matrix : mat3 -> pt3;
  (** [cv2.projectPoints(obj, rvec, tvec, K, None)] *)
  projectPoints : list pt3 -> pt3 -> pt3 -> mat3 -> option (list pt2);
  (** [cv2.convertPointsFromHomogeneous] *)
  convertPointsFromHomogeneous : list pt4 -> list pt3;
  (** [scipy.optimize.least_squares(fun, x0, g_tolrance=tol).x], with the
      keyword as the source spells it; [None] when the call raises *)
  least_squares : (list R -> option (list R)) -> list R -> R -> option (list R);
  (** [image[row, col]]: the colour of a pixel *)
  pixel : Image -> Z -> Z -> option pt3;
  (** [cv2.waitKey(1) & 0xff == ord('q')] at the end of iteration [i] *)
  quit_pressed : nat -> bool
}.

Section Pipeline.

Context (cv : Vision).

(** ** Correspondence finder: [StructurefromMotion.feature_matching] *)

(** The loop [for m, n in matches: if m.distance < 0.70 * n.distance:
    feature.append(m)]; an entry that is not a pair cannot be unpacked. *)
Fixpoint ratio_test (matches : list (list DMatch)) : option (list DMatch) :=
  match matches with
  | [] => Some []
  | [m; n] :: rest =>
      feature <- ratio_test rest ;;
      Some (if Rltb (distance m) (0.70 * distance n) then m :: feature else feature)
  | _ :: _ => None
  end.

(** [[key_points[ix m].pt for m in feature]]. *)
Fixpoint points_of (key_points : list pt2) (ix : DMatch -> nat) (feature : list DMatch)
  : option (list pt2) :=
  match feature with
  | [] => Some []
  | m :: rest =>
      p <- nth_error key_points (ix m) ;;
      r <- points_of key_points ix rest ;;
      Some (p :: r)
  end.

Definition feature_matching (image_0 image_1 : Image cv) : option (list pt2 * list pt2) :=
  let '(key_points0, descriptors_0) := detectAndCompute cv image_0 in
  let '(key_points1, descriptors_1) := detectAndCompute cv image_1 in
  let matches := knnMatch cv descriptors_0 descriptors_1 in
  feature <- ratio_test matches ;;
  pts0 <- points_of key_points0 queryIdx feature ;;
  pts1 <- points_of key_points1 trainIdx feature ;;
  Some (pts0, pts1).

(** What one entry of the k = 2 matches contributes to [feature]. *)
Definition nearest_if_unambiguous (e : list DMatch) : list DMatch :=
  match e with
  | [m; n] => if Rltb (distance m) (0.70 * distance n) then [m] else []
  | _ => []
  end.

(** ** Triangulation: [StructurefromMotion.triangulation] *)

(** The fourth, homogeneous coordinate of a point. *)
Definition fourth (p : pt4) : R := snd p.

(** [point_cloud / point_cloud[3]] for one point: every coordinate is divided
    by the fourth. *)
Definition div_by_w (p : pt4) : pt4 :=
  let '(x, y, z, w) := p in (x / w, y / w, z / w, w / w).

(** The driver passes the two projection matrices first and the two point
    arrays last, so the parameters [pts_2d_1], [pts_2d_2] hold matrices and
    [proj_matrix_1], [proj_matrix_2] hold points. *)
Definition triangulation (pts_2d_1 pts_2d_2 : mat34) (proj_matrix_1 proj_matrix_2 : list pt2)
  : option (list pt2 * list pt2 * list pt4) :=
  point_cloud <- triangulatePoints cv pts_2d_1 pts_2d_2 proj_matrix_1 proj_matrix_2 ;;
  Some (proj_matrix_1, proj_matrix_2, map div_by_w point_cloud).

(** ** Pose estimator: [StructurefromMotion.solve_PnP] *)

(** With [initial == 1] the three arrays are first brought to one row per
    point ([obj_point[:,0,:]], [image_point.T], [rot_vector.T]); lists of
    points are in that form already. *)
Definition solve_PnP (obj_point : list pt3) (image_point : list pt2) (K : mat3)
    (dist_coeff : list R) (rot_vector : list pt2) (initial : bool)
  : option (mat3 * pt3 * list pt2 * list pt3 * list pt2) :=
  '(rot_vector_calc, tran_vector, inlier) <-
     solvePnPRansac cv obj_point image_point K dist_coeff ;;
  let rot_matrix := Rodrigues_vector cv rot_vector_calc in
  match inlier with
  | Some ix =>
      image_point' <- take image_point ix ;;
      obj_point' <- take obj_point ix ;;
      rot_vector' <- take rot_vector ix ;;
      Some (rot_matrix, tran_vector, image_point', obj_point', rot_vector')
  | None => Some (rot_matrix, tran_vector, image_point, obj_point, rot_vector)
  end.

(** ** Reprojection evaluator: [StructurefromMotion.reproj_error] *)

(** The argument [obj_points] with its flag [homogenity]: homogeneous points
    when the flag is 1, Cartesian points otherwise. *)
Inductive ObjPoints : Type :=
| Homogeneous (obj_points : list pt4)
| Cartesian (obj_points : list pt3).

Definition dist2 (p q : pt2) : R := sqrt (sq (fst p - fst q) + sq (snd p - snd q)).

(** [cv2.norm(a, b, cv2.NORM_L2)]: the square root of the sum of the squared
    differences of all entries; the arrays need the same size. *)
Definition norm_L2 (a b : list pt2) : option R :=
  if Nat.eqb (length a) (length b)
  then Some (sqrt (sum_R (map (fun pq => sq (fst (fst pq) - fst (snd pq))
                                         + sq (snd (fst pq) - snd (snd pq)))
                              (combine a b))))
  else None.

Definition reproj_error (obj_points : ObjPoints) (image_points : list pt2)
    (transform_matrix : mat34) (K : mat3) : option (R * list pt3) :=
  let rot_matrix := rot_part transform_matrix in
  let tran_vector := tran_part transform_matrix in
  let rot_vector := Rodrigues_matrix cv rot_matrix in
  let obj_points :=
    match obj_points with
    | Homogeneous h => convertPointsFromHomogeneous cv h
    | Cartesian c => c
    end in
  image_points_calc <- projectPoints cv obj_points rot_vector tran_vector K ;;
  total_error <- norm_L2 image_points_calc image_points ;;
  match length image_points_calc with
  | O => None
  | S _ => Some (total_error / INR (length image_points_calc), obj_points)
  end.

(** ** Bundle adjuster *)

(** [v[a:b]]. *)
Definition slice (v : list R) (a b : nat) : list R := firstn (b - a) (skipn a v).

Definition reshape34 (v : list R) : option mat34 :=
  match v with
  | [a11; a12; a13; a14; a21; a22; a23; a24; a31; a32; a33; a34] =>
      Some ((a11, a12, a13, a14), (a21, a22, a23, a24), (a31, a32, a33, a34))
  | _ => None
  end.
Definition reshape33 (v : list R) : option mat3 :=
  match v with
  | [a11; a12; a13; a21; a22; a23; a31; a32; a33] =>
      Some ((a11, a12, a13), (a21, a22, a23), (a31, a32, a33))
  | _ => None
  end.

(** [.reshape((int(len / 3), 3))]. *)
Fixpoint reshape3 (v : list R) : option (list pt3) :=
  match v with
  | [] => Some []
  | x :: y :: z :: v' => r <- reshape3 v' ;; Some ((x, y, z) :: r)
  | _ => None
  end.

(** [.reshape((2, n)).T]: the first [n] entries are the first coordinates,
    the last [n] the second coordinates. *)
Definition reshape_2xN_T (v : list R) (n : nat) : option (list pt2) :=
  if Nat.eqb (length v) (2 * n) then Some (combine (firstn n v) (skipn n v)) else None.

(** [.ravel()] of a 2 x N array of points, of an N x 2 and of an N x 3 one. *)
Definition ravel_2xN (pts : list pt2) : list R := map fst pts ++ map snd pts.
Definition ravel_Nx2 (pts : list pt2) : list R := flat_map (fun p => [fst p; snd p]) pts.
Definition ravel_Nx3 (pts : list pt3) : list R :=
  flat_map (fun p => let '(x, y, z) := p in [x; y; z]) pts.


(** [int(n * 0.4)]. *)
Definition int_times_0_4 (n : nat) : nat := (4 * n / 10)%nat.

(** [[(p[idx] - image_points[idx])**2 for idx in range(len(p))]]. *)
Fixpoint squared_differences (p image_points : list pt2) : option (list pt2) :=
  match p, image_points with
  | [], _ => Some []
  | a :: p', b :: image_points' =>
      r <- squared_differences p' image_points' ;;
      Some ((sq (fst a - fst b), sq (snd a - snd b)) :: r)
  | _ :: _, [] => None
  end.

Definition optimize_reproj_error (obj_points : list R) : option (list R) :=
  transform_matrix <- reshape34 (slice obj_points 0 12) ;;
  K <- reshape33 (slice obj_points 12 21) ;;
  let rest := int_times_0_4 (length (skipn 21 obj_points)) in
  p <- reshape_2xN_T (slice obj_points 21 (21 + rest)) (rest / 2) ;;
  obj_points <- reshape3 (skipn (21 + rest) obj_points) ;;
  let rot_matrix := rot_part transform_matrix in
  let tran_vector := tran_part transform_matrix in
  let rot_vector := Rodrigues_matrix cv rot_matrix in
  image_points <- projectPoints cv obj_points rot_vector tran_vector K ;;
  error <- squared_differences p image_points ;;
  Some (map (fun e => e / INR (length p)) (ravel_Nx2 error)).

(** The array [opt] arrives as 2 x N, [_3d_point] as N x 1 x 3. *)
Definition compute_bundle_adjustment (_3d_point : list pt3) (opt : list pt2)
    (transform_matrix_new : mat34) (K : mat3) (r_error : R)
  : option (list pt3 * list pt2 * mat34) :=
  let opt_variables := ravel34 transform_matrix_new ++ ravel3 K in
  let opt_variables := opt_variables ++ ravel_2xN opt in
  let opt_variables := opt_variables ++ ravel_Nx3 _3d_point in
  values_corrected <- least_squares cv optimize_reproj_error opt_variables r_error ;;
  K <- reshape33 (slice values_corrected 12 21) ;;
  let rest := int_times_0_4 (length (skipn 21 values_corrected)) in
  points <- reshape3 (skipn (21 + rest) values_corrected) ;;
  observations <- reshape_2xN_T (slice values_corrected 21 (21 + rest)) (rest / 2) ;;
  transform <- reshape34 (slice values_corrected 0 12) ;;
  Some (points, observations, transform).

(** ** Reconstruction driver: [ImageLoader] and [StructurefromMotion.__call__] *)

(** [cv2.imread] is folded into [image_list]: the list holds the decoded
    image of every path. *)
Record ImageLoader : Type := mkImageLoader {
  K : mat3;
  image_list : list (Image cv);
  factor : R
}.

(** [ImageLoader.__init__]: [K_file] is the matrix read from [K.txt]. *)
Definition ImageLoader_init (K_file : mat3) (images : list (Image cv))
    (downscale_factor : R) : ImageLoader :=
  {| K := downscale_instrinsics K_file downscale_factor;
     image_list := images;
     factor := downscale_factor |}.

(** [int(x)] and [dtype=np.int32]: truncation towards zero. *)
Definition np_int (x : R) : Z :=
  if Rle_dec 0 x then Int_part x else (- Int_part (- x))%Z.

(** [for _ in range(1, int(self.factor / 2) + 1): image = cv2.pyrDown(image)]. *)
Definition downscale_image (self : ImageLoader) (image : Image cv) : Image cv :=
  Nat.iter (Z.to_nat (np_int (factor self / 2))) (pyrDown cv) image.

(** The variables of [__call__] that live across iterations, with the object
    [self.img_obj]. *)
Record State : Type := mkState {
  img_obj : ImageLoader;
  transform_matrix_0 : mat34;
  transform_matrix_1 : mat34;
  pose_0 : mat34;
  pose_1 : mat34;
  image_0 : Image cv;
  image_1 : Image cv;
  features_0 : list pt2;
  features_1 : list pt2;
  points_3d : list pt3;
  total_points : list pt3;
  total_colors : list pt3;
  pose_array : list R;
  (** the points given to [plt.scatter(i, error)] *)
  errors : list (nat * R)
}.

(** Lines 410-411: the world pose of the second view. *)
Definition compose_pose (transform_matrix_0 : mat34) (rot_matrix : mat3) (tran_matrix : pt3)
  : mat34 :=
  hstack_Rt (matmul3 rot_matrix (rot_part transform_matrix_0))
            (add3 (tran_part transform_matrix_0)
                  (matvec3 (rot_part transform_matrix_0) tran_matrix)).

(** [[image[l[1], l[0]] for l in np.array(pts, dtype=np.int32)]]. *)
Fixpoint sample_colors (image : Image cv) (pts : list pt2) : option (list pt3) :=
  match pts with
  | [] => Some []
  | l :: pts' =>
      c <- pixel cv image (np_int (snd l)) (np_int (fst l)) ;;
      r <- sample_colors image pts' ;;
      Some (c :: r)
  end.

Definition zeros5 : list R := [0; 0; 0; 0; 0].

(** Lines 385-422: the first two views. *)
Definition bootstrap (self : ImageLoader) : option State :=
  let pose_array := ravel3 (K self) in
  let transform_matrix_0 := hstack_Rt identity3 zero3 in
  let pose_0 := matmul34 (K self) transform_matrix_0 in
  let total_points := [zero3] in
  let total_colors := [zero3] in
  image_0 <- nth_error (image_list self) 0 ;;
  let image_0 := downscale_image self image_0 in
  image_1 <- nth_error (image_list self) 1 ;;
  let image_1 := downscale_image self image_1 in
  '(features_0, features_1) <- feature_matching image_0 image_1 ;;
  '(essential_matrix, em_mask) <- findEssentialMat cv features_0 features_1 (K self) ;;
  features_0 <- compress (map (Nat.eqb 1) em_mask) features_0 ;;
  features_1 <- compress (map (Nat.eqb 1) em_mask) features_1 ;;
  '(rot_matrix, tran_matrix, em_mask) <-
     recoverPose cv essential_matrix features_0 features_1 (K self) ;;
  features_0 <- compress (map (Nat.ltb 0) em_mask) features_0 ;;
  features_1 <- compress (map (Nat.ltb 0) em_mask) features_1 ;;
  let transform_matrix_1 := compose_pose transform_matrix_0 rot_matrix tran_matrix in
  let pose_1 := matmul34 (K self) transform_matrix_1 in
  '(features_0, features_1, points_3d) <- triangulation pose_0 pose_1 features_0 features_1 ;;
  '(error, points_3d) <-
     reproj_error (Homogeneous points_3d) features_1 transform_matrix_1 (K self) ;;
  '(_, _, features_1, points_3d, _) <-
     solve_PnP points_3d features_1 (K self) zeros5 features_0 true ;;
  let pose_array := (pose_array ++ ravel34 pose_0) ++ ravel34 pose_1 in
  Some {| img_obj := self;
          transform_matrix_0 := transform_matrix_0;
          transform_matrix_1 := transform_matrix_1;
          pose_0 := pose_0; pose_1 := pose_1;
          image_0 := image_0; image_1 := image_1;
          features_0 := features_0; features_1 := features_1;
          points_3d := points_3d;
          total_points := total_points; total_colors := total_colors;
          pose_array := pose_array; errors := [] |}.

(** Lines 427-474: the body of the loop for the image of index [i + 2]. *)
Definition iteration (bundle_adjustmenet_enabled : bool) (i : nat) (s : State)
  : option State :=
  let self := img_obj s in
  let threshold := 0.5 in
  image_2 <- nth_error (image_list self) (i + 2) ;;
  let image_2 := downscale_image self image_2 in
  '(features_cur, features_2) <- feature_matching (image_1 s) image_2 ;;
  '(features_1, points_3d) <-
     (if Nat.eqb i 0 then Some (features_1 s, points_3d s)
      else
        '(_, features_1, points_3d) <-
           triangulation (pose_0 s) (pose_1 s) (features_0 s) (features_1 s) ;;
        Some (features_1, convertPointsFromHomogeneous cv points_3d)) ;;
  '(cm_points_0, cm_points_1, cm_mask_0, cm_mask_1) <-
     find_common_points features_1 features_cur features_2 ;;
  cm_points_2 <- take_array features_2 cm_points_1 ;;
  cm_points_cur <- take_array features_cur cm_points_1 ;;
  known_3d <- take_array points_3d cm_points_0 ;;
  '(rot_matrix, tran_matrix, cm_points_2, points_3d, cm_points_cur) <-
     solve_PnP known_3d cm_points_2 (K self) zeros5 cm_points_cur false ;;
  let transform_matrix_1 := hstack_Rt rot_matrix tran_matrix in
  let pose_2 := matmul34 (K self) transform_matrix_1 in
  '(error, points_3d) <-
     reproj_error (Cartesian points_3d) cm_points_2 transform_matrix_1 (K self) ;;
  '(cm_mask_0, cm_mask_1, points_3d) <-
     triangulation (pose_1 s) pose_2 cm_mask_0 cm_mask_1 ;;
  '(error, points_3d) <-
     reproj_error (Homogeneous points_3d) cm_mask_1 transform_matrix_1 (K self) ;;
  let pose_array := pose_array s ++ ravel34 pose_2 in
  '(points_3d, cm_mask_1, transform_matrix_1, pose_2, error) <-
     (if bundle_adjustmenet_enabled then
        '(points_3d, cm_mask_1, transform_matrix_1) <-
           compute_bundle_adjustment points_3d cm_mask_1 transform_matrix_1 (K self)
             threshold ;;
        let pose_2 := matmul34 (K self) transform_matrix_1 in
        '(error, points_3d) <-
           reproj_error (Cartesian points_3d) cm_mask_1 transform_matrix_1 (K self) ;;
        Some (points_3d, cm_mask_1, transform_matrix_1, pose_2, error)
      else Some (points_3d, cm_mask_1, transform_matrix_1, pose_2, error)) ;;
  let total_points := total_points s ++ points_3d in
  color_vector <- sample_colors image_2 cm_mask_1 ;;
  let total_colors := total_colors s ++ color_vector in
  Some {| img_obj := self;
          transform_matrix_0 := transform_matrix_1;
          transform_matrix_1 := transform_matrix_1;
          pose_0 := pose_1 s; pose_1 := pose_2;
          image_0 := image_1 s; image_1 := image_2;
          features_0 := features_cur; features_1 := features_2;
          points_3d := points_3d;
          total_points := total_points; total_colors := total_colors;
          pose_array := pose_array; errors := errors s ++ [(i, error)] |}.

(** [for i in range(total_images)] from iteration [i] on, [n] iterations
    left; the key [q] leaves the loop. *)
Fixpoint loop (bundle_adjustmenet_enabled : bool) (n i : nat) (s : State) : option State :=
  match n with
  | O => Some s
  | S n' =>
      s' <- iteration bundle_adjustmenet_enabled i s ;;
      if quit_pressed cv i then Some s' else loop bundle_adjustmenet_enabled n' (S i) s'
  end.

(** [StructurefromMotion.__call__]: the final state, the rows written to the
    point-cloud file and the values written to the trajectory file. *)
Definition call (self : ImageLoader) (bundle_adjustmenet_enabled : bool)
  : option (State * (nat * list vert) * list R) :=
  s <- bootstrap self ;;
  let total_images := (length (image_list self) - 2)%nat in
  s <- loop bundle_adjustmenet_enabled total_images 0 s ;;
  ply <- save_to_ply (total_points s) (total_colors s) ;;
  Some (s, ply, pose_array s).

End Pipeline.

(** ** Test data: a camera that never rotates

    Images are named by numbers and all show the same three key points.  The
    first image is matched with key points 0 and 1 against 0 and 1 of the
    next, every later image with key points 1 and 2 against 0 and 1; the
    nearest descriptor is at distance 1 and the second nearest at distance 2.
    The optimizer returns its start vector with every entry moved by 1. *)

Definition test_keypoints : list pt2 := [(1, 1); (2, 2); (3, 3)].

Definition test_match (q t : nat) : list DMatch := [mkDMatch 1 q t; mkDMatch 2 q t].

Definition test_vision : Vision :=
  {| Image := nat;
     Descriptors := nat;
     pyrDown := fun image => image;
     detectAndCompute := fun image => (test_keypoints, image);
     knnMatch := fun d0 _ =>
       if Nat.eqb d0 0 then [test_match 0 0; test_match 1 1]
       else [test_match 1 0; test_match 2 1];
     findEssentialMat := fun f0 _ _ => Some (identity3, map (fun _ => 1%nat) f0);
     recoverPose := fun _ f0 _ _ => Some (identity3, (1, 0, 0), map (fun _ => 1%nat) f0);
     triangulatePoints := fun _ _ a _ => Some (map (fun p => (fst p, snd p, 1, 1)) a);
     solvePnPRansac := fun obj _ _ _ => Some (zero3, zero3, Some (seq 0 (length obj)));
     Rodrigues_vector := fun _ => identity3;
     Rodrigues_matrix := fun _ => zero3;
     projectPoints := fun obj _ _ _ =>
       Some (map (fun p => let '(x, y, z) := p in (x / z, y / z)) obj);
     convertPointsFromHomogeneous :=
       map (fun p => let '(x, y, z, w) := p in (x / w, y / w, z / w));
     least_squares := fun _ x0 _ => Some (map (Rplus 1) x0);
     pixel := fun _ _ _ => Some zero3;
     quit_pressed := fun _ => false |}.

Definition test_K : mat3 := ((2, 0, 4), (0, 2, 6), (0, 0, 1)).

Definition test_loader : ImageLoader test_vision :=
  ImageLoader_init test_vision test_K [0; 1; 2; 3]%nat 2.

(** The contract of [cv2.projectPoints] that the driver relies on: one
    projected point per object point. *)
Definition projection_keeps_count (cv : Vision) : Prop :=
  forall obj rvec tvec K calc,
    projectPoints cv obj rvec tvec K = Some calc -> length calc = length obj.

(** A state of the test run in which the only tracked observation of the
    shared view is (1, 1). *)
Definition test_state : State test_vision :=
  {| img_obj := test_loader;
     transform_matrix_0 := hstack_Rt identity3 zero3;
     transform_matrix_1 := hstack_Rt identity3 zero3;
     pose_0 := hstack_Rt identity3 zero3;
     pose_1 := hstack_Rt identity3 zero3;
     image_0 := 0%nat;
     image_1 := 1%nat;
     features_0 := [(1, 1)];
     features_1 := [(1, 1)];
     points_3d := [(1, 1, 1)];
     total_points := [zero3];
     total_colors := [zero3];
     pose_array := [];
     errors := [] |}.

(** * Properties *)

(** ** Deciding comparisons of reals *)

Lemma Reqb_true a b : a = b -> Reqb a b = true.
Proof. intros H. unfold Reqb. destruct (Req_dec_T a b); congruence. Qed.

Lemma Reqb_false a b : a <> b -> Reqb a b = false.
Proof. intros H. unfold Reqb. destruct (Req_dec_T a b); congruence. Qed.

Lemma Reqb_iff a b : Reqb a b = true <-> a = b.
Proof. unfold Reqb. destruct (Req_dec_T a b); split; congruence. Qed.

Lemma Rltb_true a b : a < b -> Rltb a b = true.
Proof. intros H. unfold Rltb. destruct (Rlt_dec a b); tauto. Qed.

Lemma Rltb_false a b : ~ a < b -> Rltb a b = false.
Proof. intros H. unfold Rltb. destruct (Rlt_dec a b); tauto. Qed.

Lemma Rltb_iff a b : Rltb a b = true <-> a < b.
Proof. unfold Rltb. destruct (Rlt_dec a b); split; auto; discriminate. Qed.

Arguments Reqb : simpl never.
Arguments Rltb : simpl never.

(** Rewrites every comparison of two numerals to its value. *)
Ltac decide_reals :=
  repeat match goal with
  | |- context [Reqb ?a ?b] =>
      first [ rewrite (Reqb_true a b) by lra | rewrite (Reqb_false a b) by lra ]
  | |- context [Rltb ?a ?b] =>
      first [ rewrite (Rltb_true a b) by lra | rewrite (Rltb_false a b) by lra ]
  end.

(** ** NumPy indexing *)

Lemma bind_Some {A B : Type} (c : option A) (k : A -> option B) (b : B) :
  bind c k = Some b <-> exists a, c = Some a /\ k a = Some b.
Proof.
  destruct c as [a|]; simpl; split.
  - intros H. exists a. auto.
  - intros (a' & Ha & Hk). injection Ha as ->. exact Hk.
  - discriminate.
  - intros (a' & Ha & _). discriminate.
Qed.

Lemma where_from_In k m j :
  In j (where_from k m) <-> exists i, j = (k + i)%nat /\ nth_error m i = Some true.
Proof.
  revert k. induction m as [|b m IH]; intros k; simpl.
  - split; [tauto|]. intros ([|i] & _ & H); discriminate.
  - rewrite in_app_iff, IH. split.
    + intros [H | (i & -> & H)].
      * destruct b; simpl in H; [|tauto]. destruct H as [<-|[]].
        exists 0%nat. split; [lia | reflexivity].
      * exists (S i). split; [lia | exact H].
    + intros ([|i] & -> & H); simpl in H.
      * injection H as ->. left. left. lia.
      * right. exists i. split; [lia | exact H].
Qed.

Lemma np_where_In m j : In j (np_where m) <-> nth_error m j = Some true.
Proof.
  unfold np_where. rewrite where_from_In. split.
  - intros (i & -> & H). exact H.
  - intros H. exists j. auto.
Qed.

Lemma take_length {A : Type} (l r : list A) idx :
  take l idx = Some r -> length r = length idx.
Proof.
  revert r. induction idx as [|i idx IH]; simpl; intros r H.
  - injection H as <-. reflexivity.
  - apply bind_Some in H as (x & _ & H). apply bind_Some in H as (r' & Hr & H).
    injection H as <-. simpl. f_equal. auto.
Qed.

Lemma take_nth {A : Type} (l r : list A) idx :
  take l idx = Some r ->
  forall k i, nth_error idx k = Some i -> nth_error r k = nth_error l i.
Proof.
  revert r. induction idx as [|i0 idx IH]; simpl; intros r H k i Hk.
  - destruct k; discriminate.
  - apply bind_Some in H as (x & Hx & H). apply bind_Some in H as (r' & Hr & H).
    injection H as <-. destruct k as [|k]; simpl in *.
    + injection Hk as ->. auto.
    + eauto.
Qed.

Lemma take_in_range {A : Type} (l : list A) idx :
  (forall i, In i idx -> (i < length l)%nat) -> exists r, take l idx = Some r.
Proof.
  induction idx as [|i idx IH]; simpl; intros H.
  - eauto.
  - destruct IH as (r & Hr); [auto|].
    destruct (nth_error l i) as [x|] eqn:Hx.
    + rewrite Hr. simpl. eauto.
    + apply nth_error_None in Hx. specialize (H i (or_introl eq_refl)). lia.
Qed.

(** Indexing with the positions of the true entries of a mask is indexing
    with the mask. *)
Lemma take_where_from {A : Type} (pre l : list A) (m : list bool) :
  length m = length l ->
  take (pre ++ l) (where_from (length pre) m) = compress m l.
Proof.
  revert pre l. induction m as [|b m IH]; intros pre [|x l] Hlen;
    try discriminate; simpl.
  - reflexivity.
  - injection Hlen as Hlen.
    assert (Hrest : take (pre ++ x :: l) (where_from (S (length pre)) m) = compress m l).
    { specialize (IH (pre ++ [x]) l Hlen).
      rewrite <- app_assoc, length_app in IH. simpl in IH.
      replace (length pre + 1)%nat with (S (length pre)) in IH by lia. exact IH. }
    destruct b; simpl.
    + rewrite nth_error_app2, Nat.sub_diag by lia. simpl. rewrite Hrest. reflexivity.
    + rewrite Hrest. destruct (compress m l); reflexivity.
Qed.

Lemma take_np_where {A : Type} (l : list A) (m : list bool) :
  length m = length l -> take l (np_where m) = compress m l.
Proof. intros H. exact (take_where_from [] l m H). Qed.

Lemma compress_all {A : Type} (l : list A) (m : list bool) :
  length m = length l -> Forall (fun b => b = true) m -> compress m l = Some l.
Proof.
  revert l. induction m as [|b m IH]; intros [|x l] Hlen Hall; try discriminate.
  - reflexivity.
  - injection Hlen as Hlen. inversion Hall as [|? ? Hb Hm]; subst. simpl.
    rewrite (IH l Hlen Hm). reflexivity.
Qed.

Lemma compress_filter {A : Type} (l : list A) (p : A -> bool) :
  compress (map p l) l = Some (filter p l).
Proof.
  induction l as [|x l IH]; simpl; [reflexivity|].
  rewrite IH. simpl. destruct (p x); reflexivity.
Qed.

Lemma set_row_spec {A : Type} (l : list A) i v :
  (i < length l)%nat ->
  exists l', set_row l i v = Some l' /\ length l' = length l /\
    forall j, nth_error l' j = if Nat.eqb j i then Some v else nth_error l j.
Proof.
  revert i. induction l as [|x l IH]; intros i Hi; simpl in Hi; [lia|].
  destruct i as [|i]; simpl.
  - exists (v :: l). repeat split. intros [|j]; reflexivity.
  - destruct (IH i) as (l' & -> & Hlen & Hnth); [lia|]. simpl.
    exists (x :: l'). repeat split; [simpl; lia|].
    intros [|j]; simpl; [reflexivity | apply Hnth].
Qed.

Lemma set_row_None {A : Type} (l : list A) i v :
  (length l <= i)%nat -> set_row l i v = None.
Proof.
  revert i. induction l as [|x l IH]; intros i Hi; simpl; [reflexivity|].
  destruct i as [|i]; simpl in *; [lia|]. rewrite IH by lia. reflexivity.
Qed.

Lemma mem_In j idx : mem j idx = true <-> In j idx.
Proof.
  unfold mem. rewrite existsb_exists. split.
  - intros (x & Hx & He). apply Nat.eqb_eq in He. subst. exact Hx.
  - intros H. exists j. split; [exact H | apply Nat.eqb_refl].
Qed.

Lemma set_rows_spec {A : Type} (idx : list nat) (l : list A) v :
  (forall i, In i idx -> (i < length l)%nat) ->
  exists l', set_rows l idx v = Some l' /\ length l' = length l /\
    forall j, nth_error l' j = if mem j idx then nth_error (map (fun _ => v) l) j
                               else nth_error l j.
Proof.
  revert l. induction idx as [|i idx IH]; intros l H; simpl.
  - exists l. repeat split.
  - destruct (set_row_spec l i v) as (l1 & -> & Hlen1 & Hnth1); [apply H; simpl; auto|].
    simpl. destruct (IH l1) as (l' & -> & Hlen & Hnth).
    { intros i' Hi'. rewrite Hlen1. apply H. simpl. auto. }
    exists l'. repeat split; [congruence|].
    intros j. rewrite Hnth, Hnth1. unfold mem. simpl. fold (mem j idx).
    destruct (mem j idx) eqn:Hm; simpl.
    + rewrite orb_true_r. rewrite !nth_error_map.
      destruct (nth_error l1 j) eqn:E1, (nth_error l j) eqn:E2; try reflexivity.
      * apply nth_error_None in E2. assert (nth_error l1 j <> None) by congruence.
        apply nth_error_Some in H0. lia.
      * apply nth_error_None in E1. assert (nth_error l j <> None) by congruence.
        apply nth_error_Some in H0. lia.
    + rewrite orb_false_r. destruct (Nat.eqb j i) eqn:E; [|reflexivity].
      apply Nat.eqb_eq in E. subst j. rewrite nth_error_map.
      destruct (nth_error l i) eqn:E2; [reflexivity|].
      apply nth_error_None in E2. specialize (H i (or_introl eq_refl)). lia.
Qed.

Lemma set_rows_out_of_range {A : Type} (idx : list nat) (l : list A) v :
  (exists i, In i idx /\ (length l <= i)%nat) -> set_rows l idx v = None.
Proof.
  revert l. induction idx as [|i0 idx IH]; intros l (i & Hin & Hi); simpl in *.
  - tauto.
  - destruct (Nat.lt_ge_cases i0 (length l)) as [Hlt | Hge].
    + destruct (set_row_spec l i0 v Hlt) as (l1 & -> & Hlen1 & _). simpl.
      destruct Hin as [-> | Hin]; [lia|].
      apply IH. exists i. split; [exact Hin | lia].
    + rewrite set_row_None by exact Hge. reflexivity.
Qed.

Lemma nth_error_combine {A B : Type} (a : list A) (b : list B) k :
  nth_error (combine a b) k =
  match nth_error a k, nth_error b k with
  | Some x, Some y => Some (x, y)
  | _, _ => None
  end.
Proof.
  revert b k. induction a as [|x a IH]; intros [|y b] [|k]; simpl; try reflexivity.
  - destruct (nth_error a k); reflexivity.
  - apply IH.
Qed.

(** ** Track linker *)

Lemma where_rows_from_In k m j :
  In j (where_rows_from k m) <->
  exists i a b, j = (k + i)%nat /\ nth_error m i = Some (a, b) /\ a || b = true.
Proof.
  revert k. induction m as [|[a b] m IH]; intros k; simpl.
  - split; [tauto|]. intros ([|i] & ? & ? & _ & H & _); discriminate.
  - rewrite !in_app_iff, IH. split.
    + intros [H | [H | (i & a' & b' & -> & H & Hab)]].
      * destruct a; simpl in H; [|tauto]. destruct H as [<-|[]].
        exists 0%nat, true, b. repeat split; try lia.
      * destruct b; simpl in H; [|tauto]. destruct H as [<-|[]].
        exists 0%nat, a, true. repeat split; try lia; apply orb_true_r.
      * exists (S i), a', b'. repeat split; auto; try lia.
    + intros ([|i] & a' & b' & -> & H & Hab); simpl in H.
      * injection H as -> ->. rewrite Nat.add_0_r.
        destruct a'; simpl in *; [left; auto | subst b'; right; left; simpl; auto].
      * right. right. exists i, a', b'. repeat split; auto; try lia.
Qed.

(** A row is selected by the comparison when it shares a coordinate with
    the row it is compared with. *)
Lemma np_where_rows_eq_broadcast pts p j :
  In j (np_where_rows (eq_broadcast pts p)) <->
  exists q, nth_error pts j = Some q /\ (fst q = fst p \/ snd q = snd p).
Proof.
  unfold np_where_rows, eq_broadcast, pt2. rewrite where_rows_from_In. split.
  - intros (i & a & b & -> & H & Hab). simpl.
    rewrite nth_error_map in H.
    destruct (@nth_error (R * R) pts i) as [q|]; simpl in H; [|discriminate].
    injection H as <- <-. exists q. split; [reflexivity|].
    apply orb_true_iff in Hab. rewrite !Reqb_iff in Hab. exact Hab.
  - intros (q & Hq & Hc). exists j, (Reqb (fst q) (fst p)), (Reqb (snd q) (snd p)).
    repeat split.
    + rewrite nth_error_map, Hq. reflexivity.
    + apply orb_true_iff. rewrite !Reqb_iff. exact Hc.
Qed.

Lemma common_loop_length i pts1 pts2 :
  length (fst (common_loop i pts1 pts2)) = length (snd (common_loop i pts1 pts2)).
Proof.
  revert i. induction pts1 as [|p rest IH]; intros i; simpl; [reflexivity|].
  specialize (IH (S i)). destruct (common_loop (S i) rest pts2) as [c1 c2].
  destruct (np_where_rows (eq_broadcast pts2 p)); simpl in *; congruence.
Qed.

(** What the loop records, pair by pair: the previous index [i0 + k] is
    recorded when row [k] has a hit, together with the first hit. *)
Lemma common_loop_pairs i0 pts1 pts2 i j :
  In (i, j) (combine (fst (common_loop i0 pts1 pts2)) (snd (common_loop i0 pts1 pts2))) <->
  exists k p rest, i = (i0 + k)%nat /\ nth_error pts1 k = Some p /\
                   np_where_rows (eq_broadcast pts2 p) = j :: rest.
Proof.
  revert i0. induction pts1 as [|p0 tl IH]; intros i0; simpl.
  - split; [tauto|]. intros ([|k] & ? & ? & _ & H & _); discriminate.
  - specialize (IH (S i0)). destruct (common_loop (S i0) tl pts2) as [c1 c2].
    simpl in IH.
    assert (Hstep : (exists k p rest, i = (S i0 + k)%nat /\ nth_error tl k = Some p /\
                       np_where_rows (eq_broadcast pts2 p) = j :: rest) ->
                    exists k p rest, i = (i0 + k)%nat /\ nth_error (p0 :: tl) k = Some p /\
                       np_where_rows (eq_broadcast pts2 p) = j :: rest).
    { intros (k & p & rest & -> & Hk & Hw). exists (S k), p, rest.
      repeat split; auto; try lia. }
    destruct (np_where_rows (eq_broadcast pts2 p0)) as [|j0 rest0] eqn:Hw; simpl.
    + rewrite IH. split; [exact Hstep|].
      intros ([|k] & p & rest & -> & Hk & Hw'); simpl in Hk.
      * injection Hk as <-. congruence.
      * exists k, p, rest. repeat split; auto; try lia.
    + rewrite IH. split.
      * intros [H | H]; [|exact (Hstep H)]. injection H as <- <-.
        exists 0%nat, p0, rest0. repeat split; auto.
      * intros ([|k] & p & rest & -> & Hk & Hw'); simpl in Hk.
        -- injection Hk as <-. left. f_equal; [lia | congruence].
        -- right. exists k, p, rest. repeat split; auto; try lia.
Qed.

Lemma common_loop_In_1 i0 pts1 pts2 i :
  In i (fst (common_loop i0 pts1 pts2)) <->
  exists k p, i = (i0 + k)%nat /\ nth_error pts1 k = Some p /\
              np_where_rows (eq_broadcast pts2 p) <> [].
Proof.
  revert i0. induction pts1 as [|p0 tl IH]; intros i0; simpl.
  - split; [tauto|]. intros ([|k] & ? & _ & H & _); discriminate.
  - specialize (IH (S i0)). destruct (common_loop (S i0) tl pts2) as [c1 c2].
    simpl in IH.
    destruct (np_where_rows (eq_broadcast pts2 p0)) as [|j0 rest0] eqn:Hw; simpl.
    + rewrite IH. split.
      * intros (k & p & -> & Hk & Hn). exists (S k), p. repeat split; auto; try lia.
      * intros ([|k] & p & -> & Hk & Hn); simpl in Hk.
        -- injection Hk as <-. congruence.
        -- exists k, p. repeat split; auto; try lia.
    + rewrite IH. split.
      * intros [<- | (k & p & -> & Hk & Hn)].
        -- exists 0%nat, p0. repeat split; [lia | congruence].
        -- exists (S k), p. repeat split; auto; try lia.
      * intros ([|k] & p & -> & Hk & Hn); simpl in Hk.
        -- left. lia.
        -- right. exists k, p. repeat split; auto; try lia.
Qed.

Lemma common_loop_In_2 i0 pts1 pts2 j :
  In j (snd (common_loop i0 pts1 pts2)) -> (j < length pts2)%nat.
Proof.
  intros H.
  assert (Hlen := common_loop_length i0 pts1 pts2).
  destruct (In_nth_error _ _ H) as (k & Hk).
  destruct (nth_error (fst (common_loop i0 pts1 pts2)) k) as [i|] eqn:Hi.
  - assert (Hin : In (i, j) (combine (fst (common_loop i0 pts1 pts2))
                                    (snd (common_loop i0 pts1 pts2)))).
    { apply (nth_error_In _ k). rewrite nth_error_combine, Hi, Hk. reflexivity. }
    apply common_loop_pairs in Hin as (k' & p & rest & _ & _ & Hw).
    assert (Hj : In j (np_where_rows (eq_broadcast pts2 p))) by (rewrite Hw; simpl; auto).
    apply np_where_rows_eq_broadcast in Hj as (q & Hq & _).
    apply nth_error_Some. congruence.
  - apply nth_error_None in Hi. assert (k < length (snd (common_loop i0 pts1 pts2)))%nat.
    { apply nth_error_Some. congruence. }
    lia.
Qed.

Lemma common_loop_sorted i0 pts1 pts2 :
  StronglySorted lt (fst (common_loop i0 pts1 pts2)) /\
  Forall (le i0) (fst (common_loop i0 pts1 pts2)).
Proof.
  revert i0. induction pts1 as [|p0 tl IH]; intros i0; simpl.
  - split; constructor.
  - destruct (IH (S i0)) as (Hs & Hf).
    destruct (common_loop (S i0) tl pts2) as [c1 c2]. simpl in *.
    assert (Hf' : Forall (le i0) c1).
    { eapply Forall_impl; [|exact Hf]. simpl. intros; lia. }
    destruct (np_where_rows (eq_broadcast pts2 p0)); simpl.
    + auto.
    + split; constructor; auto.
Qed.

(** *** The masks *)

Lemma mask_false_length pts : length (mask_false pts) = length pts.
Proof. apply length_map. Qed.

Lemma mask_false_same_length (a b : list pt2) :
  length a = length b -> mask_false a = mask_false b.
Proof.
  revert b. induction a as [|x a IH]; intros [|y b] H; try discriminate; simpl.
  - reflexivity.
  - f_equal. apply IH. simpl in H. lia.
Qed.

Lemma mask_rows_spec pts idx :
  (forall i, In i idx -> (i < length pts)%nat) ->
  exists mask, mask_rows pts idx = Some mask /\ length mask = length pts /\
    forall j, (j < length pts)%nat ->
              nth_error mask j = Some (mem j idx, mem j idx).
Proof.
  intros H. unfold mask_rows.
  destruct (set_rows_spec idx (mask_false pts) (true, true)) as (mask & Hm & Hlen & Hnth).
  { intros i Hi. rewrite mask_false_length. auto. }
  exists mask. rewrite mask_false_length in Hlen. repeat split; auto.
  intros j Hj. rewrite Hnth. unfold mask_false. rewrite !nth_error_map.
  destruct (nth_error pts j) eqn:E.
  - destruct (mem j idx); reflexivity.
  - apply nth_error_None in E. lia.
Qed.

Lemma compressed_uniform pts mask :
  length mask = length pts ->
  Forall (fun m => fst m = snd m) mask ->
  reshape2 (compressed pts mask) =
  compress (map (fun m => negb (fst m) && negb (snd m)) mask) pts.
Proof.
  revert mask. induction pts as [|[x y] pts IH]; intros [|[mx my] mask] Hlen Hall;
    try discriminate; simpl.
  - reflexivity.
  - injection Hlen as Hlen. inversion Hall as [|? ? Hm Hall']; subst. simpl in Hm. subst my.
    destruct mx; simpl; rewrite (IH mask Hlen Hall');
      destruct (compress _ pts); reflexivity.
Qed.

Lemma mask_rows_uniform pts idx mask :
  mask_rows pts idx = Some mask ->
  length mask = length pts /\ Forall (fun m => fst m = snd m) mask /\
  forall j, (j < length pts)%nat -> nth_error mask j = Some (mem j idx, mem j idx).
Proof.
  intros Hm.
  assert (Hrange : forall i, In i idx -> (i < length pts)%nat).
  { intros i Hi. destruct (Nat.lt_ge_cases i (length pts)) as [|Hge]; [assumption|].
    unfold mask_rows in Hm. rewrite set_rows_out_of_range in Hm; [discriminate|].
    exists i. rewrite mask_false_length. auto. }
  destruct (mask_rows_spec pts idx Hrange) as (mask' & Hm' & Hlen & Hnth).
  rewrite Hm in Hm'. injection Hm' as <-. repeat split; auto.
  apply Forall_forall. intros m Hin. destruct (In_nth_error _ _ Hin) as (j & Hj).
  assert (j < length pts)%nat.
  { rewrite <- Hlen. apply nth_error_Some. congruence. }
  rewrite Hnth in Hj by assumption. injection Hj as <-. reflexivity.
Qed.

(** The rows returned as novel are the rows at the unmasked indices. *)
Lemma masked_rest_take pts idx mask :
  mask_rows pts idx = Some mask ->
  masked_rest pts idx = take pts (unmasked mask).
Proof.
  intros Hm. unfold masked_rest. rewrite Hm. simpl.
  destruct (mask_rows_uniform pts idx mask Hm) as (Hlen & Hu & _).
  rewrite compressed_uniform by assumption.
  unfold unmasked. rewrite take_np_where; [reflexivity|].
  rewrite length_map. exact Hlen.
Qed.

Lemma unmasked_In pts idx mask j :
  mask_rows pts idx = Some mask ->
  In j (unmasked mask) <-> (j < length pts)%nat /\ ~ In j idx.
Proof.
  intros Hm. destruct (mask_rows_uniform pts idx mask Hm) as (Hlen & _ & Hnth).
  unfold unmasked. rewrite np_where_In, nth_error_map. split.
  - intros H. destruct (nth_error mask j) as [m|] eqn:E; [|discriminate].
    assert (Hj : (j < length pts)%nat).
    { rewrite <- Hlen. apply nth_error_Some. congruence. }
    split; [exact Hj|]. rewrite Hnth in E by exact Hj. injection E as <-.
    simpl in H. injection H as H. intros Hin. apply mem_In in Hin.
    rewrite Hin in H. discriminate.
  - intros (Hj & Hn). rewrite Hnth by exact Hj. simpl.
    destruct (mem j idx) eqn:E; [|reflexivity].
    apply mem_In in E. contradiction.
Qed.

Lemma where_rows_from_head k m j rest :
  where_rows_from k m = j :: rest ->
  forall j', In j' (where_rows_from k m) -> (j <= j')%nat.
Proof.
  revert k. induction m as [|[a b] m IH]; intros k H j' Hin; simpl in H; [discriminate|].
  assert (Hge : (k <= j')%nat).
  { apply where_rows_from_In in Hin as (i & ? & ? & -> & _). lia. }
  destruct a; simpl in H; [injection H as <- _; exact Hge|].
  destruct b; simpl in H; [injection H as <- _; exact Hge|].
  simpl in Hin. apply (IH (S k) H). exact Hin.
Qed.

Lemma find_common_points_Some pts1 pts2 pts3 cm1 cm2 m1 m2 :
  find_common_points pts1 pts2 pts3 = Some (cm1, cm2, m1, m2) ->
  cm1 = fst (common_loop 0 pts1 pts2) /\ cm2 = snd (common_loop 0 pts1 pts2) /\
  masked_rest pts2 cm2 = Some m1 /\ masked_rest pts3 cm2 = Some m2.
Proof.
  unfold find_common_points. destruct (common_loop 0 pts1 pts2) as [c1 c2]. intros H.
  apply bind_Some in H as (a1 & H1 & H). apply bind_Some in H as (a2 & H2 & H).
  injection H as <- <- <- <-. auto.
Qed.

(** The linker returns a result whenever the two arrays of the new pair have
    the same length, and then the partition below holds. *)
Lemma find_common_points_equal_length pts1 pts2 pts3 :
  length pts3 = length pts2 ->
  exists cm1 cm2 m1 m2,
    find_common_points pts1 pts2 pts3 = Some (cm1, cm2, m1, m2).
Proof.
  intros Hlen.
  assert (Hrange := common_loop_In_2 0 pts1 pts2).
  destruct (common_loop 0 pts1 pts2) as [cm1 cm2] eqn:Hloop. simpl in Hrange.
  destruct (mask_rows_spec pts2 cm2 Hrange) as (mask & Hmask & Hmlen & _).
  assert (Hmask3 : mask_rows pts3 cm2 = Some mask).
  { unfold mask_rows in *. rewrite (mask_false_same_length pts3 pts2 Hlen). exact Hmask. }
  assert (Hin := fun j => unmasked_In pts2 cm2 mask j Hmask).
  destruct (take_in_range pts2 (unmasked mask)) as (m1 & Hm1).
  { intros i Hi. apply Hin in Hi. tauto. }
  destruct (take_in_range pts3 (unmasked mask)) as (m2 & Hm2).
  { intros i Hi. apply Hin in Hi. rewrite Hlen. tauto. }
  exists cm1, cm2, m1, m2. unfold find_common_points.
  rewrite Hloop, (masked_rest_take pts2 cm2 mask Hmask),
    (masked_rest_take pts3 cm2 mask Hmask3), Hm1, Hm2.
  reflexivity.
Qed.

Lemma masked_rest_Some pts idx m :
  masked_rest pts idx = Some m ->
  exists mask, mask_rows pts idx = Some mask /\ take pts (unmasked mask) = Some m.
Proof.
  intros H. destruct (mask_rows pts idx) as [mask|] eqn:Hmask.
  - exists mask. split; [reflexivity|].
    rewrite <- (masked_rest_take pts idx mask Hmask). exact H.
  - unfold masked_rest in H. rewrite Hmask in H. discriminate.
Qed.

(** C3.  The known indices into the new pair's shared-view observations and
    the indices of the observations returned as novel are disjoint, and
    together they are the whole index range of that array; the arrays
    returned as novel are the rows at the novel indices.  The linker returns
    a result whenever the two arrays of the new pair have the same length. *)
Theorem find_common_points_partition pts1 pts2 pts3 :
  (length pts3 = length pts2 ->
   exists cm1 cm2 m1 m2,
     find_common_points pts1 pts2 pts3 = Some (cm1, cm2, m1, m2)) /\
  (forall cm1 cm2 m1 m2,
     find_common_points pts1 pts2 pts3 = Some (cm1, cm2, m1, m2) ->
     take pts2 (novel_indices pts2 cm2) = Some m1 /\
     take pts3 (novel_indices pts3 cm2) = Some m2 /\
     (forall j, In j cm2 -> ~ In j (novel_indices pts2 cm2)) /\
     (forall j, (j < length pts2)%nat <-> In j cm2 \/ In j (novel_indices pts2 cm2))).
Proof.
  split; [apply find_common_points_equal_length|].
  intros cm1 cm2 m1 m2 H.
  apply find_common_points_Some in H as (_ & _ & H2 & H3).
  apply masked_rest_Some in H2 as (mask2 & Hmask2 & Hm1).
  apply masked_rest_Some in H3 as (mask3 & Hmask3 & Hm2).
  unfold novel_indices. rewrite Hmask2, Hmask3.
  assert (Hin := fun j => unmasked_In pts2 cm2 mask2 j Hmask2).
  split; [exact Hm1|]. split; [exact Hm2|]. split.
  - intros j Hj Hn. apply Hin in Hn. tauto.
  - intros j. split.
    + intros Hj. destruct (in_dec Nat.eq_dec j cm2) as [|Hn]; [left; assumption|].
      right. apply Hin. auto.
    + intros [Hj | Hj]; [|apply Hin in Hj; tauto].
      destruct (Nat.lt_ge_cases j (length pts2)) as [|Hge]; [assumption|].
      unfold mask_rows in Hmask2. rewrite set_rows_out_of_range in Hmask2; [discriminate|].
      exists j. rewrite mask_false_length. auto.
Qed.

Lemma find_common_points_partition_witness :
  (exists cm1 cm2 m1 m2,
     find_common_points [(1, 2)] [(1, 2); (7, 8)] [(5, 6); (9, 9)]
       = Some (cm1, cm2, m1, m2)) /\
  (take [(1, 2); (7, 8)] (novel_indices [(1, 2); (7, 8)] [0%nat]) = Some [(7, 8)] /\
   take [(5, 6); (9, 9)] (novel_indices [(5, 6); (9, 9)] [0%nat]) = Some [(9, 9)] /\
   (forall j, In j [0%nat] -> ~ In j (novel_indices [(1, 2); (7, 8)] [0%nat])) /\
   (forall j, (j < length [(1, 2); (7, 8)])%nat <->
              In j [0%nat] \/ In j (novel_indices [(1, 2); (7, 8)] [0%nat]))).
Proof.
  destruct (find_common_points_partition [(1, 2)] [(1, 2); (7, 8)] [(5, 6); (9, 9)])
    as [Hreturns Hpartition].
  split.
  - apply Hreturns. reflexivity.
  - apply (Hpartition [0%nat] [0%nat] [(7, 8)] [(9, 9)]).
    unfold find_common_points. simpl. decide_reals. reflexivity.
Defined.

(** C2 (as amended).  Every previous-pair observation that is exactly equal,
    in both coordinates, to some new-pair shared-view observation is recorded
    as known.  The recorded previous indices are strictly increasing, each is
    paired with one new-pair index, and that index is in range and not later
    than any new-pair observation exactly equal to the previous one.  The
    pairing is per previous observation: nothing limits a new observation to
    one previous index. *)
Theorem find_common_points_links_exact_matches pts1 pts2 pts3 cm1 cm2 m1 m2 :
  find_common_points pts1 pts2 pts3 = Some (cm1, cm2, m1, m2) ->
  length cm1 = length cm2 /\
  StronglySorted lt cm1 /\
  (forall i p, nth_error pts1 i = Some p -> In p pts2 -> In i cm1) /\
  (forall k i j, nth_error cm1 k = Some i -> nth_error cm2 k = Some j ->
     (j < length pts2)%nat /\
     exists p, nth_error pts1 i = Some p /\
               forall j', nth_error pts2 j' = Some p -> (j <= j')%nat).
Proof.
  intros H. apply find_common_points_Some in H as (-> & -> & _ & _).
  split; [apply common_loop_length|].
  split; [apply common_loop_sorted|].
  split.
  - intros i p Hi Hp. apply common_loop_In_1. exists i, p. repeat split; auto.
    destruct (In_nth_error _ _ Hp) as (j & Hj).
    assert (Hin : In j (np_where_rows (eq_broadcast pts2 p))).
    { apply np_where_rows_eq_broadcast. exists p. auto. }
    intros E. rewrite E in Hin. exact Hin.
  - intros k i j Hi Hj.
    assert (Hin : In (i, j) (combine (fst (common_loop 0 pts1 pts2))
                                    (snd (common_loop 0 pts1 pts2)))).
    { apply (nth_error_In _ k). rewrite nth_error_combine, Hi, Hj. reflexivity. }
    split; [apply (common_loop_In_2 0 pts1 pts2); eapply nth_error_In; eassumption|].
    apply common_loop_pairs in Hin as (k' & p & rest & -> & Hp & Hw).
    exists p. split; [exact Hp|]. intros j' Hj'.
    apply (where_rows_from_head 0 _ _ _ Hw).
    apply np_where_rows_eq_broadcast. exists p. auto.
Qed.

Lemma find_common_points_links_exact_matches_witness :
  length [0%nat] = length [0%nat] /\
  StronglySorted lt [0%nat] /\
  (forall i p, nth_error [(1, 2)] i = Some p -> In p [(1, 2); (7, 8)] -> In i [0%nat]) /\
  (forall k i j, nth_error [0%nat] k = Some i -> nth_error [0%nat] k = Some j ->
     (j < length [(1, 2); (7, 8)])%nat /\
     exists p, nth_error [(1, 2)] i = Some p /\
               forall j', nth_error [(1, 2); (7, 8)] j' = Some p -> (j <= j')%nat).
Proof.
  apply (find_common_points_links_exact_matches
           [(1, 2)] [(1, 2); (7, 8)] [(5, 6); (9, 9)] [0%nat] [0%nat] [(7, 8)] [(9, 9)]).
  unfold find_common_points. simpl. decide_reals. reflexivity.
Defined.

(** C2, the claim as stated, fails where observations repeat: with two equal
    previous observations and two equal new ones, the new observation 0 is
    paired with both previous indices 0 and 1, and the new observation 1,
    although equal to a previous observation, is returned as novel. *)
Lemma find_common_points_duplicates :
  find_common_points [(1, 2); (1, 2)] [(1, 2); (1, 2)] [(5, 6); (7, 8)]
    = Some ([0; 1]%nat, [0; 0]%nat, [(1, 2)], [(7, 8)]) /\
  ~ (forall j p, nth_error [(1, 2); (1, 2)] j = Some p -> In p [(1, 2); (1, 2)] ->
                 In j [0; 0]%nat) /\
  ~ NoDup [0; 0]%nat.
Proof.
  split; [|split].
  - unfold find_common_points. simpl. decide_reals. reflexivity.
  - intros H. destruct (H 1%nat (1, 2) eq_refl (or_introl eq_refl)) as [E | [E | []]];
      discriminate.
  - intros H. inversion H as [|? ? Hn _]. apply Hn. left. reflexivity.
Qed.

(** The comparison of line 213 is entry by entry: a previous observation that
    shares only its first coordinate with a new one is recorded as known. *)
Example find_common_points_single_coordinate :
  find_common_points [(1, 2)] [(1, 5); (7, 8)] [(5, 6); (9, 9)]
    = Some ([0]%nat, [0]%nat, [(7, 8)], [(9, 9)]).
Proof. unfold find_common_points. simpl. decide_reals. reflexivity. Qed.

(** ** Exporter *)

Lemma bind_ret {A : Type} (c : option A) : bind c (fun a => Some a) = c.
Proof. destruct c; reflexivity. Qed.

Lemma centroid_dist_map verts :
  centroid_dist verts =
  map (fun v => norm3 (sub3 (fst v) (mean_axis0 (map fst verts)))) verts.
Proof. unfold centroid_dist. rewrite map_map. reflexivity. Qed.

Lemma centroid_dist_length verts : length (centroid_dist verts) = length verts.
Proof. rewrite centroid_dist_map. apply length_map. Qed.

(** The filter returns a result for every array of rows: the rows whose
    distance to the mean row is below the mean distance plus 300. *)
Lemma outlier_filter_filter verts :
  outlier_filter verts =
  Some (filter (fun v => Rltb (norm3 (sub3 (fst v) (mean_axis0 (map fst verts))))
                              (mean_R (centroid_dist verts) + 300)) verts).
Proof.
  unfold outlier_filter. cbv zeta. rewrite take_np_where.
  - set (t := mean_R (centroid_dist verts) + 300).
    rewrite centroid_dist_map, map_map. apply compress_filter.
  - rewrite length_map. apply centroid_dist_length.
Qed.

Lemma sum3_scale c (l : list pt3) :
  fold_right add3 zero3 (map (scale3 c) l) = scale3 c (fold_right add3 zero3 l).
Proof.
  induction l as [|[[x y] z] l IH]; simpl.
  - unfold zero3. f_equal; [f_equal|]; ring.
  - rewrite IH. destruct (fold_right add3 zero3 l) as [[a b] d]. simpl.
    f_equal; [f_equal|]; ring.
Qed.

Lemma mean_axis0_scale c (l : list pt3) :
  mean_axis0 (map (scale3 c) l) = scale3 c (mean_axis0 l).
Proof.
  unfold mean_axis0. rewrite sum3_scale, length_map.
  destruct (fold_right add3 zero3 l) as [[a b] d]. simpl.
  unfold Rdiv. f_equal; [f_equal|]; ring.
Qed.

Lemma norm3_scale c (p m : pt3) :
  0 <= c -> norm3 (sub3 (scale3 c p) (scale3 c m)) = c * norm3 (sub3 p m).
Proof.
  intros Hc. destruct p as [[x y] z], m as [[a b] d]. simpl. unfold sq.
  replace ((x * c - a * c) * (x * c - a * c) + (y * c - b * c) * (y * c - b * c)
           + (z * c - d * c) * (z * c - d * c))
    with ((c * c) * ((x - a) * (x - a) + (y - b) * (y - b) + (z - d) * (z - d))) by ring.
  rewrite sqrt_mult_alt by nra. rewrite sqrt_square by exact Hc. reflexivity.
Qed.

Lemma sum_R_scale c l : sum_R (map (Rmult c) l) = c * sum_R l.
Proof.
  unfold sum_R. induction l as [|x l IH]; simpl; [ring|]. rewrite IH. ring.
Qed.

Lemma mean_R_scale c l : mean_R (map (Rmult c) l) = c * mean_R l.
Proof. unfold mean_R. rewrite sum_R_scale, length_map. unfold Rdiv. ring. Qed.

Lemma combine_scale c (pts colors : list pt3) :
  combine (map (scale3 c) pts) colors = map (scale_vert c) (combine pts colors).
Proof.
  revert colors. induction pts as [|p pts IH]; intros [|k colors]; simpl; try reflexivity.
  rewrite IH. reflexivity.
Qed.

Lemma centroid_dist_scale c verts :
  0 <= c ->
  centroid_dist (map (scale_vert c) verts) = map (Rmult c) (centroid_dist verts).
Proof.
  intros Hc. rewrite !centroid_dist_map, !map_map.
  replace (map (fun x => fst (scale_vert c x)) verts)
    with (map (scale3 c) (map fst verts)) by (rewrite map_map; reflexivity).
  rewrite mean_axis0_scale. apply map_ext. intros v. simpl. apply norm3_scale. exact Hc.
Qed.

Lemma filter_map_commute {A B : Type} (f : A -> B) (p : B -> bool) (l : list A) :
  filter p (map f l) = map f (filter (fun x => p (f x)) l).
Proof.
  induction l as [|x l IH]; simpl; [reflexivity|].
  rewrite IH. destruct (p (f x)); reflexivity.
Qed.

Lemma Rltb_scale_200 d m : Rltb (200 * d) (200 * m + 300) = Rltb d (m + 3 / 2).
Proof.
  destruct (Rlt_dec d (m + 3 / 2)) as [H | H].
  - rewrite (Rltb_true d) by exact H. apply Rltb_true. lra.
  - rewrite (Rltb_false d) by exact H. apply Rltb_false. lra.
Qed.

(** The rows kept by [save_to_ply], in the unscaled coordinates: a point is
    kept when its distance to the centroid is below the mean distance plus
    3/2, and the kept points are written scaled by 200. *)
Lemma save_to_ply_unscaled point_cloud colors :
  length point_cloud = length colors ->
  let verts := combine point_cloud colors in
  let kept :=
    filter (fun v => Rltb (norm3 (sub3 (fst v) (mean_axis0 (map fst verts))))
                          (mean_R (centroid_dist verts) + 3 / 2)) verts in
  save_to_ply point_cloud colors = Some (length kept, map (scale_vert 200) kept).
Proof.
  intros Hlen verts kept. unfold save_to_ply, hstack_verts.
  rewrite length_map, Hlen, Nat.eqb_refl. simpl.
  rewrite combine_scale. fold verts. rewrite outlier_filter_filter. simpl.
  rewrite centroid_dist_scale by lra. rewrite mean_R_scale.
  rewrite filter_map_commute.
  replace (map fst (map (scale_vert 200) verts))
    with (map (scale3 200) (map fst verts)) by (rewrite !map_map; reflexivity).
  rewrite mean_axis0_scale.
  assert (E : filter (fun x => Rltb (norm3 (sub3 (fst (scale_vert 200 x))
                                      (scale3 200 (mean_axis0 (map fst verts)))))
                                 (200 * mean_R (centroid_dist verts) + 300)) verts = kept).
  { unfold kept. apply filter_ext. intros v. simpl.
    rewrite norm3_scale by lra. apply Rltb_scale_200. }
  rewrite E, length_map. reflexivity.
Qed.

(** C1 (as amended).  [save_to_ply] scales every accumulated point by 200
    first and applies the centroid-distance filter to the scaled coordinates,
    keeping the rows whose distance is strictly below the mean distance plus
    300; in the unscaled coordinates this keeps the points whose distance to
    the centroid is strictly below the mean distance plus 3/2. *)
Theorem save_to_ply_scales_then_filters point_cloud colors :
  length point_cloud = length colors ->
  (exists kept,
     outlier_filter (combine (map (scale3 200) point_cloud) colors) = Some kept /\
     save_to_ply point_cloud colors = Some (length kept, kept)) /\
  save_to_ply point_cloud colors =
    let verts := combine point_cloud colors in
    let kept :=
      filter (fun v => Rltb (norm3 (sub3 (fst v) (mean_axis0 (map fst verts))))
                            (mean_R (centroid_dist verts) + 3 / 2)) verts in
    Some (length kept, map (scale_vert 200) kept).
Proof.
  intros Hlen. split; [|apply save_to_ply_unscaled; exact Hlen].
  unfold save_to_ply, hstack_verts. rewrite length_map, Hlen, Nat.eqb_refl. simpl.
  rewrite outlier_filter_filter. simpl. eexists. split; reflexivity.
Qed.

(** C6 (as amended).  On rows that all lie strictly within the mean distance
    plus 300 of their centroid, the filter removes nothing. *)
Theorem outlier_filter_keeps_filtered_cloud verts :
  Forall (fun d => d < mean_R (centroid_dist verts) + 300) (centroid_dist verts) ->
  outlier_filter verts = Some verts.
Proof.
  intros H. unfold outlier_filter. cbv zeta. rewrite take_np_where.
  - apply compress_all.
    + rewrite length_map. apply centroid_dist_length.
    + apply Forall_map. eapply Forall_impl; [|exact H].
      intros d Hd. apply Rltb_true. exact Hd.
  - rewrite length_map. apply centroid_dist_length.
Qed.

(** *** Concrete clouds *)

Lemma list3_eq {A : Type} (a b c a' b' c' : A) :
  a = a' -> b = b' -> c = c' -> [a; b; c] = [a'; b'; c'].
Proof. intros -> -> ->. reflexivity. Qed.

(** Distances of three rows to their centroid, given by their squares. *)
Lemma centroid_dist_3 (p1 p2 p3 k1 k2 k3 : pt3) (d1 d2 d3 : R) :
  let m := mean_axis0 [p1; p2; p3] in
  0 <= d1 -> 0 <= d2 -> 0 <= d3 ->
  dot3 (sub3 p1 m) (sub3 p1 m) = d1 * d1 ->
  dot3 (sub3 p2 m) (sub3 p2 m) = d2 * d2 ->
  dot3 (sub3 p3 m) (sub3 p3 m) = d3 * d3 ->
  centroid_dist [(p1, k1); (p2, k2); (p3, k3)] = [d1; d2; d3].
Proof.
  intros m H1 H2 H3 E1 E2 E3. rewrite centroid_dist_map. simpl. fold m.
  assert (N : forall v d, 0 <= d -> dot3 v v = d * d -> norm3 v = d).
  { intros [[x y] z] d Hd E. simpl in *. unfold sq. rewrite E. apply sqrt_square. exact Hd. }
  apply list3_eq; apply N; assumption.
Qed.

Ltac real_arith := unfold mean_axis0, mean_R, sum_R, zero3; simpl; lra.

Lemma centroid_dist_cloud_9 : centroid_dist (combine cloud_9 black_3) = [3; 3; 6].
Proof. apply centroid_dist_3; real_arith. Qed.

Lemma centroid_dist_cloud_1350 :
  centroid_dist (combine cloud_1350 black_3) = [450; 450; 900].
Proof. apply centroid_dist_3; real_arith. Qed.

Lemma filter_by_key {A : Type} (f : A -> R) (p : R -> bool) (l : list A) :
  filter (fun v => p (f v)) l =
  map snd (filter (fun dv => p (fst dv)) (combine (map f l) l)).
Proof.
  induction l as [|x l IH]; simpl; [reflexivity|].
  rewrite IH. destruct (p (f x)); reflexivity.
Qed.

(** The kept rows, selected by the list of distances. *)
Lemma filter_by_dist verts t :
  filter (fun v => Rltb (norm3 (sub3 (fst v) (mean_axis0 (map fst verts)))) t) verts =
  map snd (filter (fun dv => Rltb (fst dv) t) (combine (centroid_dist verts) verts)).
Proof.
  rewrite centroid_dist_map.
  exact (filter_by_key (fun v => norm3 (sub3 (fst v) (mean_axis0 (map fst verts))))
                       (fun d => Rltb d t) verts).
Qed.

(** C1, the claim as stated, fails on the cloud (0,0,0), (0,0,0), (9,0,0):
    filtering the unscaled points at mean + 300 and scaling afterwards keeps
    all three points, while [save_to_ply] writes only two, the third point
    being 1200 away from the centroid of the scaled cloud, whose mean
    distance is 800. *)
Lemma save_to_ply_not_filter_then_scale :
  save_to_ply cloud_9 black_3
    = Some (2%nat, map (scale_vert 200) [((0, 0, 0), zero3); ((0, 0, 0), zero3)]) /\
  spec_save_to_ply cloud_9 black_3
    = Some (3%nat, map (scale_vert 200) (combine cloud_9 black_3)) /\
  save_to_ply cloud_9 black_3 <> spec_save_to_ply cloud_9 black_3.
Proof.
  assert (E1 : save_to_ply cloud_9 black_3
    = Some (2%nat, map (scale_vert 200) [((0, 0, 0), zero3); ((0, 0, 0), zero3)])).
  { rewrite save_to_ply_unscaled by reflexivity. cbv zeta.
    rewrite filter_by_dist, centroid_dist_cloud_9.
    unfold mean_R, sum_R. simpl. decide_reals. reflexivity. }
  assert (E2 : spec_save_to_ply cloud_9 black_3
    = Some (3%nat, map (scale_vert 200) (combine cloud_9 black_3))).
  { unfold spec_save_to_ply.
    replace (hstack_verts cloud_9 black_3) with (Some (combine cloud_9 black_3))
      by reflexivity.
    unfold bind, spec_outlier_filter. cbv beta iota zeta.
    rewrite centroid_dist_cloud_9.
    unfold mean_R, sum_R. simpl. decide_reals. reflexivity. }
  split; [exact E1|]. split; [exact E2|].
  rewrite E1, E2. intros H. discriminate H.
Qed.

Lemma save_to_ply_scales_then_filters_witness :
  (exists kept,
     outlier_filter (combine (map (scale3 200) cloud_9) black_3) = Some kept /\
     save_to_ply cloud_9 black_3 = Some (length kept, kept)) /\
  save_to_ply cloud_9 black_3 =
    let verts := combine cloud_9 black_3 in
    let kept :=
      filter (fun v => Rltb (norm3 (sub3 (fst v) (mean_axis0 (map fst verts))))
                            (mean_R (centroid_dist verts) + 3 / 2)) verts in
    Some (length kept, map (scale_vert 200) kept).
Proof.
  apply (save_to_ply_scales_then_filters cloud_9 black_3). reflexivity.
Defined.

Lemma outlier_filter_keeps_filtered_cloud_witness :
  outlier_filter (combine cloud_9 black_3) = Some (combine cloud_9 black_3).
Proof.
  apply (outlier_filter_keeps_filtered_cloud (combine cloud_9 black_3)).
  rewrite centroid_dist_cloud_9. unfold mean_R, sum_R. simpl.
  repeat constructor; lra.
Defined.

(** C6, the claim as stated, fails on the boundary: in the cloud (0,0,0),
    (0,0,0), (1350,0,0) the distances to the centroid are 450, 450 and 900
    and their mean is 600, so every point lies within mean + 300 = 900 of
    the centroid, and the filter removes the third point. *)
Lemma outlier_filter_removes_boundary_point :
  Forall (fun d => d <= mean_R (centroid_dist (combine cloud_1350 black_3)) + 300)
         (centroid_dist (combine cloud_1350 black_3)) /\
  outlier_filter (combine cloud_1350 black_3)
    = Some [((0, 0, 0), zero3); ((0, 0, 0), zero3)] /\
  outlier_filter (combine cloud_1350 black_3) <> Some (combine cloud_1350 black_3).
Proof.
  assert (E : outlier_filter (combine cloud_1350 black_3)
              = Some [((0, 0, 0), zero3); ((0, 0, 0), zero3)]).
  { rewrite outlier_filter_filter, filter_by_dist, centroid_dist_cloud_1350.
    unfold mean_R, sum_R. simpl. decide_reals. reflexivity. }
  split; [|split; [exact E|]].
  - rewrite centroid_dist_cloud_1350. unfold mean_R, sum_R. simpl.
    repeat constructor; lra.
  - rewrite E. intros H. discriminate H.
Qed.

(** ** The stages that call OpenCV *)

Section Stages.

Context (cv : Vision).

(** *** Correspondence finder *)

Lemma ratio_test_passes matches feature :
  ratio_test matches = Some feature ->
  Forall (fun m => exists n, In [m; n] matches /\ distance m < 0.70 * distance n) feature.
Proof.
  revert feature. induction matches as [|e rest IH]; intros feature H; simpl in H.
  - injection H as <-. constructor.
  - destruct e as [|m [|n [|x e]]]; try discriminate.
    apply bind_Some in H as (f & Hf & H). injection H as <-.
    assert (IH' : Forall (fun m0 => exists n0, In [m0; n0] ([m; n] :: rest) /\
                                   distance m0 < 0.70 * distance n0) f).
    { eapply Forall_impl; [|exact (IH f Hf)].
      intros m0 (n0 & Hin & Hlt). exists n0. split; [right; exact Hin | exact Hlt]. }
    destruct (Rltb (distance m) (0.70 * distance n)) eqn:E; [|exact IH'].
    constructor; [|exact IH']. exists n. split; [left; reflexivity|].
    apply Rltb_iff. exact E.
Qed.

Lemma ratio_test_pairs matches :
  Forall (fun e => length e = 2%nat) matches -> exists feature, ratio_test matches = Some feature.
Proof.
  induction 1 as [|e rest He _ (f & Hf)]; simpl; [eauto|].
  destruct e as [|m [|n [|x e]]]; try discriminate. rewrite Hf. simpl. eauto.
Qed.

Lemma points_of_length key_points ix feature pts :
  points_of key_points ix feature = Some pts -> length pts = length feature.
Proof.
  revert pts. induction feature as [|m rest IH]; simpl; intros pts H.
  - injection H as <-. reflexivity.
  - apply bind_Some in H as (p & _ & H). apply bind_Some in H as (r & Hr & H).
    injection H as <-. simpl. f_equal. auto.
Qed.

(** C9.  Every match behind a returned pair of points passed the ratio test:
    it is the nearest neighbour [m] of an entry [[m; n]] of the k = 2 matches
    and its distance is strictly below 0.70 times the distance of the second
    neighbour [n]; the returned arrays list the points of exactly these
    matches. *)
Theorem feature_matching_ratio_test image_0 image_1 pts0 pts1 :
  feature_matching cv image_0 image_1 = Some (pts0, pts1) ->
  let matches := knnMatch cv (snd (detectAndCompute cv image_0))
                             (snd (detectAndCompute cv image_1)) in
  exists feature,
    ratio_test matches = Some feature /\
    Forall (fun m => exists n, In [m; n] matches /\ distance m < 0.70 * distance n)
           feature /\
    points_of (fst (detectAndCompute cv image_0)) queryIdx feature = Some pts0 /\
    points_of (fst (detectAndCompute cv image_1)) trainIdx feature = Some pts1 /\
    length pts0 = length feature /\ length pts1 = length feature.
Proof.
  unfold feature_matching.
  destruct (detectAndCompute cv image_0) as [kp0 d0].
  destruct (detectAndCompute cv image_1) as [kp1 d1]. simpl.
  intros H. apply bind_Some in H as (feature & Hf & H).
  apply bind_Some in H as (p0 & H0 & H). apply bind_Some in H as (p1 & H1 & H).
  injection H as <- <-. exists feature. repeat split; auto.
  - apply ratio_test_passes. exact Hf.
  - eapply points_of_length; eassumption.
  - eapply points_of_length; eassumption.
Qed.

(** *** Triangulation *)

Lemma div_by_w_fourth p : fourth p <> 0 -> fourth (div_by_w p) = 1.
Proof.
  destruct p as [[[x y] z] w]. unfold fourth. simpl. intros Hw. field. exact Hw.
Qed.

Lemma div_by_w_fourth_zero p : fourth p = 0 -> fourth (div_by_w p) = 0.
Proof.
  destruct p as [[[x y] z] w]. unfold fourth. simpl. intros ->. unfold Rdiv. ring.
Qed.

(** C10.  The returned points are the raw homogeneous points, each divided
    coordinate by coordinate by its fourth coordinate.  Where that coordinate
    is not zero the returned point has fourth coordinate 1; nothing guards
    the division, and where it is zero the returned fourth coordinate is not
    1. *)
Theorem triangulation_divides_by_fourth P1 P2 a b raw :
  triangulatePoints cv P1 P2 a b = Some raw ->
  triangulation cv P1 P2 a b = Some (a, b, map div_by_w raw) /\
  (forall x y z w, div_by_w (x, y, z, w) = (x / w, y / w, z / w, w / w)) /\
  (Forall (fun p => fourth p <> 0) raw ->
   Forall (fun p => fourth p = 1) (map div_by_w raw)) /\
  (forall p, In p raw -> (fourth (div_by_w p) = 1 <-> fourth p <> 0)).
Proof.
  intros H. unfold triangulation. rewrite H. simpl.
  split; [reflexivity|]. split; [reflexivity|]. split.
  - intros Hall. apply Forall_map. eapply Forall_impl; [|exact Hall].
    intros p. apply div_by_w_fourth.
  - intros p _. split.
    + intros H1 H0. rewrite (div_by_w_fourth_zero p H0) in H1. lra.
    + apply div_by_w_fourth.
Qed.

(** *** Pose estimator *)

(** C5.  When the PnP solve returns inlier indices (all of them rows of the
    three arrays), the three returned arrays are the rows of the three input
    arrays at these indices, in that order: they have the length of the index
    array and their k-th rows are the rows of the inputs at the k-th inlier
    index. *)
Theorem solve_PnP_prunes_in_lockstep
    obj_point image_point K dist_coeff rot_vector initial rvec tvec ix :
  solvePnPRansac cv obj_point image_point K dist_coeff = Some (rvec, tvec, Some ix) ->
  (forall i, In i ix -> (i < length obj_point)%nat /\ (i < length image_point)%nat /\
                        (i < length rot_vector)%nat) ->
  exists image_point' obj_point' rot_vector',
    solve_PnP cv obj_point image_point K dist_coeff rot_vector initial
      = Some (Rodrigues_vector cv rvec, tvec, image_point', obj_point', rot_vector') /\
    take image_point ix = Some image_point' /\
    take obj_point ix = Some obj_point' /\
    take rot_vector ix = Some rot_vector' /\
    length image_point' = length ix /\
    length obj_point' = length ix /\
    length rot_vector' = length ix /\
    forall k i, nth_error ix k = Some i ->
      nth_error image_point' k = nth_error image_point i /\
      nth_error obj_point' k = nth_error obj_point i /\
      nth_error rot_vector' k = nth_error rot_vector i.
Proof.
  intros Hs Hr. unfold solve_PnP. rewrite Hs. simpl.
  destruct (take_in_range image_point ix) as (ip & Hip); [intros i Hi; apply Hr, Hi|].
  destruct (take_in_range obj_point ix) as (op & Hop); [intros i Hi; apply Hr, Hi|].
  destruct (take_in_range rot_vector ix) as (rv & Hrv); [intros i Hi; apply Hr, Hi|].
  exists ip, op, rv. rewrite Hip, Hop, Hrv. simpl.
  repeat split; eauto using take_length, take_nth.
Qed.

(** *** Reprojection evaluator *)

Lemma sq_dist2 p q : sq (dist2 p q) = sq (fst p - fst q) + sq (snd p - snd q).
Proof.
  unfold dist2. unfold sq at 1. apply sqrt_sqrt.
  apply Rplus_le_le_0_compat; apply Rle_0_sqr.
Qed.

Lemma norm_L2_dist2 a b :
  length a = length b ->
  norm_L2 a b = Some (sqrt (sum_R (map (fun pq => sq (dist2 (fst pq) (snd pq)))
                                       (combine a b)))).
Proof.
  intros H. unfold norm_L2. rewrite H, Nat.eqb_refl. do 3 f_equal.
  apply map_ext. intros pq. symmetry. apply sq_dist2.
Qed.

(** C4 (as amended).  For a non-empty set of points whose projections are as
    many as the observations, the evaluator returns the L2 norm of the whole
    difference array, that is the square root of the sum of the squared
    point distances, divided by the number of points. *)
Theorem reproj_error_is_norm_over_count obj_points image_points transform_matrix K calc :
  let points :=
    match obj_points with
    | Homogeneous h => convertPointsFromHomogeneous cv h
    | Cartesian c => c
    end in
  projectPoints cv points (Rodrigues_matrix cv (rot_part transform_matrix))
                (tran_part transform_matrix) K = Some calc ->
  length calc = length image_points ->
  calc <> [] ->
  reproj_error cv obj_points image_points transform_matrix K =
    Some (sqrt (sum_R (map (fun pq => sq (dist2 (fst pq) (snd pq)))
                           (combine calc image_points)))
          / INR (length calc), points).
Proof.
  intros points Hp Hlen Hne. unfold reproj_error. fold points. rewrite Hp. simpl.
  rewrite (norm_L2_dist2 calc image_points Hlen). simpl.
  destruct calc as [|c calc]; [contradiction|]. reflexivity.
Qed.

End Stages.

(** *** The stages on the test camera *)

Lemma sqrt_value x d : 0 <= d -> x = d * d -> sqrt x = d.
Proof. intros Hd ->. apply sqrt_square. exact Hd. Qed.

Lemma feature_matching_ratio_test_witness :
  let matches := knnMatch test_vision (snd (detectAndCompute test_vision 0%nat))
                                      (snd (detectAndCompute test_vision 1%nat)) in
  exists feature,
    ratio_test matches = Some feature /\
    Forall (fun m => exists n, In [m; n] matches /\ distance m < 0.70 * distance n)
           feature /\
    points_of (fst (detectAndCompute test_vision 0%nat)) queryIdx feature
      = Some [(1, 1); (2, 2)] /\
    points_of (fst (detectAndCompute test_vision 1%nat)) trainIdx feature
      = Some [(1, 1); (2, 2)] /\
    length [(1, 1); (2, 2)] = length feature /\ length [(1, 1); (2, 2)] = length feature.
Proof.
  apply (feature_matching_ratio_test test_vision 0%nat 1%nat [(1, 1); (2, 2)] [(1, 1); (2, 2)]).
  unfold feature_matching. simpl. decide_reals. reflexivity.
Defined.

Lemma triangulation_divides_by_fourth_witness :
  triangulation test_vision (hstack_Rt identity3 zero3) (hstack_Rt identity3 zero3)
                [(1, 1)] [(2, 2)]
    = Some ([(1, 1)], [(2, 2)], map div_by_w [(1, 1, 1, 1)]) /\
  (forall x y z w, div_by_w (x, y, z, w) = (x / w, y / w, z / w, w / w)) /\
  (Forall (fun p => fourth p <> 0) [(1, 1, 1, 1)] ->
   Forall (fun p => fourth p = 1) (map div_by_w [(1, 1, 1, 1)])) /\
  (forall p, In p [(1, 1, 1, 1)] -> (fourth (div_by_w p) = 1 <-> fourth p <> 0)).
Proof.
  apply (triangulation_divides_by_fourth test_vision
           (hstack_Rt identity3 zero3) (hstack_Rt identity3 zero3) [(1, 1)] [(2, 2)]).
  reflexivity.
Defined.

Lemma solve_PnP_prunes_in_lockstep_witness :
  exists image_point' obj_point' rot_vector',
    solve_PnP test_vision [(0, 0, 1); (1, 1, 1)] [(1, 1); (2, 2)] identity3 zeros5
              [(5, 5); (6, 6)] false
      = Some (Rodrigues_vector test_vision zero3, zero3,
              image_point', obj_point', rot_vector') /\
    take [(1, 1); (2, 2)] [0; 1]%nat = Some image_point' /\
    take [(0, 0, 1); (1, 1, 1)] [0; 1]%nat = Some obj_point' /\
    take [(5, 5); (6, 6)] [0; 1]%nat = Some rot_vector' /\
    length image_point' = length [0; 1]%nat /\
    length obj_point' = length [0; 1]%nat /\
    length rot_vector' = length [0; 1]%nat /\
    forall k i, nth_error [0; 1]%nat k = Some i ->
      nth_error image_point' k = nth_error [(1, 1); (2, 2)] i /\
      nth_error obj_point' k = nth_error [(0, 0, 1); (1, 1, 1)] i /\
      nth_error rot_vector' k = nth_error [(5, 5); (6, 6)] i.
Proof.
  apply (solve_PnP_prunes_in_lockstep test_vision
           [(0, 0, 1); (1, 1, 1)] [(1, 1); (2, 2)] identity3 zeros5 [(5, 5); (6, 6)] false
           zero3 zero3 [0; 1]%nat).
  - reflexivity.
  - simpl. intros i [<- | [<- | []]]; repeat split; lia.
Defined.

Lemma reproj_error_is_norm_over_count_witness :
  reproj_error test_vision (Cartesian [(0, 0, 1); (0, 0, 1)]) [(3, 0); (4, 0)]
               (hstack_Rt identity3 zero3) identity3 =
    Some (sqrt (sum_R (map (fun pq => sq (dist2 (fst pq) (snd pq)))
                           (combine [(0 / 1, 0 / 1); (0 / 1, 0 / 1)] [(3, 0); (4, 0)])))
          / INR (length [(0 / 1, 0 / 1); (0 / 1, 0 / 1)]), [(0, 0, 1); (0, 0, 1)]).
Proof.
  apply (reproj_error_is_norm_over_count test_vision (Cartesian [(0, 0, 1); (0, 0, 1)])
           [(3, 0); (4, 0)] (hstack_Rt identity3 zero3) identity3
           [(0 / 1, 0 / 1); (0 / 1, 0 / 1)]).
  - reflexivity.
  - reflexivity.
  - discriminate.
Defined.

(** C4, the claim as stated, fails: for two points projected to (0,0) and
    observed at (3,0) and (4,0) the point distances are 3 and 4 and their
    mean is 7/2, while the evaluator returns sqrt(9 + 16) / 2 = 5/2. *)
Lemma reproj_error_not_mean_distance :
  exists calc e,
    projectPoints test_vision [(0, 0, 1); (0, 0, 1)]
                  (Rodrigues_matrix test_vision (rot_part (hstack_Rt identity3 zero3)))
                  (tran_part (hstack_Rt identity3 zero3)) identity3 = Some calc /\
    reproj_error test_vision (Cartesian [(0, 0, 1); (0, 0, 1)]) [(3, 0); (4, 0)]
                 (hstack_Rt identity3 zero3) identity3
      = Some (e, [(0, 0, 1); (0, 0, 1)]) /\
    e = 5 / 2 /\
    mean_R (map (fun pq => dist2 (fst pq) (snd pq)) (combine calc [(3, 0); (4, 0)])) = 7 / 2 /\
    e <> mean_R (map (fun pq => dist2 (fst pq) (snd pq)) (combine calc [(3, 0); (4, 0)])).
Proof.
  exists [(0 / 1, 0 / 1); (0 / 1, 0 / 1)],
         (sqrt (sum_R (map (fun pq => sq (fst (fst pq) - fst (snd pq))
                                      + sq (snd (fst pq) - snd (snd pq)))
                           (combine [(0 / 1, 0 / 1); (0 / 1, 0 / 1)] [(3, 0); (4, 0)])))
          / INR 2).
  assert (E : sqrt (sum_R (map (fun pq => sq (fst (fst pq) - fst (snd pq))
                                       + sq (snd (fst pq) - snd (snd pq)))
                          (combine [(0 / 1, 0 / 1); (0 / 1, 0 / 1)] [(3, 0); (4, 0)])))
              / INR 2 = 5 / 2).
  { rewrite (sqrt_value _ 5); unfold sum_R, sq; simpl; lra. }
  assert (M : mean_R (map (fun pq => dist2 (fst pq) (snd pq))
                          (combine [(0 / 1, 0 / 1); (0 / 1, 0 / 1)] [(3, 0); (4, 0)]))
              = 7 / 2).
  { unfold mean_R, sum_R, dist2. simpl.
    rewrite (sqrt_value _ 3) by (unfold sq; lra).
    rewrite (sqrt_value _ 4) by (unfold sq; lra). lra. }
  split; [reflexivity|]. split; [reflexivity|]. split; [exact E|]. split; [exact M|].
  intros H. pose proof (eq_trans (eq_sym E) (eq_trans H M)) as C. lra.
Qed.

(** ** Reconstruction driver *)

(** Inverts a successful chain of binds, one step at a time. *)
Ltac bind_inv H :=
  repeat first
    [ apply bind_Some in H;
      let x := fresh "x" in let E := fresh "E" in destruct H as (x & E & H)
    | match type of H with
      | (let '(_, _) := ?p in _) = Some _ => destruct p
      end ].

Lemma downscale_instrinsics_entries K_file factor i j :
  (i < 3)%nat -> (j < 3)%nat ->
  entry3 (downscale_instrinsics K_file factor) i j =
  if scaled_entry i j then entry3 K_file i j / factor else entry3 K_file i j.
Proof.
  destruct K_file as [[[[k00 k01] k02] [[k10 k11] k12]] [[k20 k21] k22]].
  intros Hi Hj.
  destruct i as [|[|[|i]]]; try lia; destruct j as [|[|[|j]]]; try lia; reflexivity.
Qed.

Lemma compose_pose_identity rot_matrix tran_matrix :
  compose_pose (hstack_Rt identity3 zero3) rot_matrix tran_matrix
  = hstack_Rt rot_matrix tran_matrix.
Proof.
  destruct rot_matrix as [[[[r11 r12] r13] [[r21 r22] r23]] [[r31 r32] r33]].
  destruct tran_matrix as [[t1 t2] t3].
  unfold compose_pose, identity3, zero3. simpl.
  repeat (f_equal; try ring).
Qed.

Lemma save_to_ply_returns point_cloud colors :
  length point_cloud = length colors -> exists ply, save_to_ply point_cloud colors = Some ply.
Proof. intros H. rewrite (save_to_ply_unscaled _ _ H). cbv zeta. eauto. Qed.

Section Driver.

Context (cv : Vision).

Lemma iteration_frame ba i s s' :
  iteration cv ba i s = Some s' ->
  img_obj cv s' = img_obj cv s /\
  pose_1 cv s' = matmul34 (K cv (img_obj cv s)) (transform_matrix_1 cv s') /\
  (exists more, pose_array cv s' = pose_array cv s ++ more).
Proof.
  unfold iteration. intros H. bind_inv H. injection H as <-. simpl.
  split; [reflexivity|]. split; [|eauto].
  destruct ba.
  - bind_inv E10. injection E10 as <- <- <- <- <-. reflexivity.
  - injection E10 as <- <- <- <- <-. reflexivity.
Qed.

Lemma loop_frame ba n i s s' :
  loop cv ba n i s = Some s' ->
  pose_1 cv s = matmul34 (K cv (img_obj cv s)) (transform_matrix_1 cv s) ->
  img_obj cv s' = img_obj cv s /\
  pose_1 cv s' = matmul34 (K cv (img_obj cv s)) (transform_matrix_1 cv s') /\
  (exists more, pose_array cv s' = pose_array cv s ++ more).
Proof.
  revert i s. induction n as [|n IH]; intros i s H Hinv; simpl in H.
  - injection H as <-. repeat split; auto. exists []. symmetry. apply app_nil_r.
  - apply bind_Some in H as (s1 & H1 & H).
    destruct (iteration_frame ba i s s1 H1) as (Hobj & Hpose & (m1 & Hm1)).
    destruct (quit_pressed cv i).
    + injection H as <-. repeat split; eauto.
    + rewrite <- Hobj in Hpose. destruct (IH (S i) s1 H Hpose) as (Hobj' & Hpose' & (m2 & Hm2)).
      rewrite Hobj in Hobj', Hpose'. repeat split; auto.
      exists (m1 ++ m2). rewrite Hm2, Hm1, app_assoc. reflexivity.
Qed.

Lemma bootstrap_frame self s :
  bootstrap cv self = Some s ->
  img_obj cv s = self /\
  transform_matrix_0 cv s = hstack_Rt identity3 zero3 /\
  pose_1 cv s = matmul34 (K cv self) (transform_matrix_1 cv s) /\
  (exists more, pose_array cv s = ravel3 (K cv self) ++ more) /\
  exists E f0 f1 rot_matrix tran_matrix mask,
    recoverPose cv E f0 f1 (K cv self) = Some (rot_matrix, tran_matrix, mask) /\
    transform_matrix_1 cv s
      = compose_pose (hstack_Rt identity3 zero3) rot_matrix tran_matrix.
Proof.
  unfold bootstrap. intros H. bind_inv H. injection H as <-. simpl.
  repeat split.
  - rewrite <- app_assoc. eauto.
  - eauto 10.
Qed.

(** C7.  The world pose of the second view is composed from the first pose
    and the rotation and translation recovered from the essential matrix as
    rotation [R * R0] and translation [t0 + R0 * t]; the first pose being the
    identity with zero translation, the composed pose is [(R, t)]. *)
Theorem bootstrap_pose_composition self s :
  bootstrap cv self = Some s ->
  exists E f0 f1 rot_matrix tran_matrix mask,
    recoverPose cv E f0 f1 (K cv self) = Some (rot_matrix, tran_matrix, mask) /\
    transform_matrix_1 cv s
      = compose_pose (transform_matrix_0 cv s) rot_matrix tran_matrix /\
    (forall T0,
       compose_pose T0 rot_matrix tran_matrix
       = hstack_Rt (matmul3 rot_matrix (rot_part T0))
                   (add3 (tran_part T0) (matvec3 (rot_part T0) tran_matrix))) /\
    transform_matrix_0 cv s = hstack_Rt identity3 zero3 /\
    transform_matrix_1 cv s = hstack_Rt rot_matrix tran_matrix.
Proof.
  intros H.
  destruct (bootstrap_frame self s H) as (_ & H0 & _ & _ & (E & f0 & f1 & R & t & m & Hr & H1)).
  exists E, f0, f1, R, t, m. rewrite H0. repeat split; auto.
  rewrite H1. apply compose_pose_identity.
Qed.

(** C8.  The intrinsics are written once, when the loader is built: the
    entries [K[0,0]], [K[1,1]], [K[0,2]] and [K[1,2]] are divided by the
    factor and the other entries are kept.  No iteration of the driver
    changes them, with or without bundle adjustment: after a run the stored
    matrix is still the one of the loader, it opens the trajectory, and the
    last projection matrix is the stored matrix times the last pose, whatever
    vector the optimizer returned. *)
Theorem intrinsics_scaled_once_then_fixed K_file images downscale_factor ba s ply traj :
  call cv (ImageLoader_init cv K_file images downscale_factor) ba = Some (s, ply, traj) ->
  let K0 := downscale_instrinsics K_file downscale_factor in
  (forall i j, (i < 3)%nat -> (j < 3)%nat ->
     entry3 K0 i j = if scaled_entry i j then entry3 K_file i j / downscale_factor
                     else entry3 K_file i j) /\
  K cv (img_obj cv s) = K0 /\
  pose_1 cv s = matmul34 K0 (transform_matrix_1 cv s) /\
  (exists more, traj = ravel3 K0 ++ more) /\
  (forall i s0 s1, iteration cv ba i s0 = Some s1 ->
     K cv (img_obj cv s1) = K cv (img_obj cv s0) /\
     pose_1 cv s1 = matmul34 (K cv (img_obj cv s0)) (transform_matrix_1 cv s1)).
Proof.
  intros H K0. unfold call in H.
  apply bind_Some in H as (s0 & Hb & H). apply bind_Some in H as (s1 & Hl & H).
  apply bind_Some in H as (p & Hp & H). injection H as <- <- <-.
  destruct (bootstrap_frame _ _ Hb) as (Hobj & _ & Hpose & (m0 & Hm0) & _).
  rewrite <- Hobj in Hpose at 1.
  destruct (loop_frame _ _ _ _ _ Hl Hpose) as (Hobj' & Hpose' & (m1 & Hm1)).
  rewrite Hobj in Hobj', Hpose'.
  split; [intros i j; apply downscale_instrinsics_entries|].
  split; [rewrite Hobj'; reflexivity|].
  split; [exact Hpose'|].
  split.
  - exists (m0 ++ m1). rewrite Hm1, Hm0, app_assoc. reflexivity.
  - intros i t0 t1 Ht. destruct (iteration_frame ba i t0 t1 Ht) as (Ho & Hq & _).
    rewrite Ho. auto.
Qed.

End Driver.

(** *** The driver on the test camera *)

Lemma downscale_image_test self image : downscale_image test_vision self image = image.
Proof.
  unfold downscale_image. induction (Z.to_nat (np_int (factor test_vision self / 2)));
    simpl; auto.
Qed.

Ltac run_test :=
  repeat (progress (simpl; rewrite ?downscale_image_test; decide_reals)).

Lemma bootstrap_test : exists s, bootstrap test_vision test_loader = Some s.
Proof.
  unfold bootstrap, feature_matching. run_test. eexists. reflexivity.
Qed.

Lemma loop_test ba :
  exists s0 s, bootstrap test_vision test_loader = Some s0 /\
               loop test_vision ba 2 0 s0 = Some s /\
               length (total_points test_vision s) = length (total_colors test_vision s).
Proof.
  destruct ba;
    (unfold bootstrap, feature_matching; run_test; eexists; eexists;
     split; [reflexivity|];
     unfold loop, iteration, feature_matching, find_common_points, masked_rest, mask_rows,
       solve_PnP, reproj_error, triangulation, compute_bundle_adjustment;
     run_test; split; reflexivity).
Qed.

Lemma call_test ba :
  exists s ply traj, call test_vision test_loader ba = Some (s, ply, traj).
Proof.
  destruct (loop_test ba) as (s0 & s & Hb & Hl & Hlen).
  destruct (save_to_ply_returns _ _ Hlen) as (ply & Hply).
  exists s, ply, (pose_array test_vision s).
  unfold call. rewrite Hb. cbn [bind].
  change (length (image_list test_vision test_loader) - 2)%nat with 2%nat.
  rewrite Hl. cbn [bind]. rewrite Hply. reflexivity.
Qed.

Lemma bootstrap_pose_composition_witness :
  exists s,
    bootstrap test_vision test_loader = Some s /\
    (exists E f0 f1 rot_matrix tran_matrix mask,
      recoverPose test_vision E f0 f1 (K test_vision test_loader)
        = Some (rot_matrix, tran_matrix, mask) /\
      transform_matrix_1 test_vision s
        = compose_pose (transform_matrix_0 test_vision s) rot_matrix tran_matrix /\
      (forall T0,
         compose_pose T0 rot_matrix tran_matrix
         = hstack_Rt (matmul3 rot_matrix (rot_part T0))
                     (add3 (tran_part T0) (matvec3 (rot_part T0) tran_matrix))) /\
      transform_matrix_0 test_vision s = hstack_Rt identity3 zero3 /\
      transform_matrix_1 test_vision s = hstack_Rt rot_matrix tran_matrix).
Proof.
  destruct bootstrap_test as (s & Hs). exists s. split; [exact Hs|].
  exact (bootstrap_pose_composition test_vision test_loader s Hs).
Defined.

Lemma intrinsics_scaled_once_then_fixed_witness :
  exists s ply traj,
    call test_vision test_loader true = Some (s, ply, traj) /\
    let K0 := downscale_instrinsics test_K 2 in
    (forall i j, (i < 3)%nat -> (j < 3)%nat ->
       entry3 K0 i j = if scaled_entry i j then entry3 test_K i j / 2
                       else entry3 test_K i j) /\
    K test_vision (img_obj test_vision s) = K0 /\
    pose_1 test_vision s = matmul34 K0 (transform_matrix_1 test_vision s) /\
    (exists more, traj = ravel3 K0 ++ more) /\
    (forall i s0 s1, iteration test_vision true i s0 = Some s1 ->
       K test_vision (img_obj test_vision s1) = K test_vision (img_obj test_vision s0) /\
       pose_1 test_vision s1
         = matmul34 (K test_vision (img_obj test_vision s0))
                    (transform_matrix_1 test_vision s1)).
Proof.
  destruct (call_test true) as (s & ply & traj & Hc). exists s, ply, traj.
  split; [exact Hc|].
  exact (intrinsics_scaled_once_then_fixed test_vision test_K [0; 1; 2; 3]%nat 2 true
           s ply traj Hc).
Defined.

(** * Further properties *)

(** ** The image list *)

Lemma chars_eqb_iff a b : chars_eqb a b = true <-> a = b.
Proof. unfold chars_eqb. destruct (list_eq_dec ascii_dec a b); split; congruence. Qed.

Lemma lower_length s : length (lower s) = length s.
Proof. apply length_map. Qed.

Lemma last_chars_app stem ext : last_chars (length ext) (stem ++ ext) = ext.
Proof.
  unfold last_chars. rewrite length_app.
  replace (length stem + length ext - length ext)%nat with (length stem) by lia.
  rewrite skipn_app, skipn_all, Nat.sub_diag. reflexivity.
Qed.

Lemma last_chars_split n s :
  s = firstn (length s - n) s ++ last_chars n s.
Proof. unfold last_chars. symmetry. apply firstn_skipn. Qed.

Lemma last_chars_length n s : length (last_chars n s) = Nat.min n (length s).
Proof. unfold last_chars. rewrite length_skipn. lia. Qed.

(** X1.  A file name enters the image list exactly when its last four
    characters, lowered, are [.jpg], or when the whole name, lowered, is
    [.png]: the test for [.png] compares the last five characters with a
    string of four, so a name of five or more characters ending in [.png]
    is never listed. *)
Theorem is_image_name_spec image :
  (is_image_name image = true <->
   (exists stem ext, image = stem ++ ext /\ lower ext = dot_jpg) \/
   lower image = dot_png) /\
  (forall stem ext, stem <> [] -> lower ext = dot_png ->
                    is_image_name (stem ++ ext) = false).
Proof.
  assert (Hiff : is_image_name image = true <->
    (exists stem ext, image = stem ++ ext /\ lower ext = dot_jpg) \/
    lower image = dot_png).
  { unfold is_image_name. rewrite orb_true_iff, !chars_eqb_iff. split.
    - intros [H | H].
      + left. exists (firstn (length image - 4) image), (last_chars 4 image).
        split; [apply last_chars_split | exact H].
      + right. assert (Hlen : length (lower (last_chars 5 image)) = 4%nat)
          by (rewrite H; reflexivity).
        rewrite lower_length, last_chars_length in Hlen.
        assert (E : last_chars 5 image = image).
        { unfold last_chars. replace (length image - 5)%nat with 0%nat by lia. reflexivity. }
        rewrite E in H. exact H.
    - intros [(stem & ext & -> & H) | H].
      + left. assert (Hlen : length (lower ext) = 4%nat) by (rewrite H; reflexivity).
        rewrite lower_length in Hlen.
        rewrite <- Hlen, last_chars_app. exact H.
      + right. assert (Hlen : length (lower image) = 4%nat) by (rewrite H; reflexivity).
        rewrite lower_length in Hlen.
        unfold last_chars. replace (length image - 5)%nat with 0%nat by lia. exact H. }
  split; [exact Hiff|].
  intros stem ext Hstem Hext.
  assert (Hlen : length (lower ext) = 4%nat) by (rewrite Hext; reflexivity).
  rewrite lower_length in Hlen.
  unfold is_image_name. apply orb_false_iff. split.
  - rewrite <- Hlen, last_chars_app.
    destruct (chars_eqb (lower ext) dot_jpg) eqn:E; [|reflexivity].
    apply chars_eqb_iff in E. rewrite Hext in E. discriminate E.
  - destruct (chars_eqb (lower (last_chars 5 (stem ++ ext))) dot_png) eqn:E; [|reflexivity].
    apply chars_eqb_iff in E. apply (f_equal (@length ascii)) in E.
    rewrite lower_length, last_chars_length, length_app in E.
    change (length dot_png) with 4%nat in E.
    destruct stem; [contradiction|]. simpl length in E. lia.
Qed.

Lemma is_image_name_spec_witness :
  is_image_name ("0"%char :: "."%char :: "P"%char :: "N"%char :: "G"%char :: nil) = false.
Proof.
  apply (proj2 (is_image_name_spec nil) ["0"%char] ["."%char; "P"%char; "N"%char; "G"%char]).
  - discriminate.
  - reflexivity.
Defined.

(** ** Track linker, as the comparison of line 213 decides *)

(** X2.  A previous observation is recorded as known exactly when some new
    observation shares its first or its second coordinate; it is paired with
    the first such new observation. *)
Theorem find_common_points_shared_coordinate pts1 pts2 pts3 cm1 cm2 m1 m2 :
  find_common_points pts1 pts2 pts3 = Some (cm1, cm2, m1, m2) ->
  (forall i, In i cm1 <->
     exists p q, nth_error pts1 i = Some p /\ In q pts2 /\
                 (fst q = fst p \/ snd q = snd p)) /\
  (forall k i j, nth_error cm1 k = Some i -> nth_error cm2 k = Some j ->
     exists p q, nth_error pts1 i = Some p /\ nth_error pts2 j = Some q /\
       (fst q = fst p \/ snd q = snd p) /\
       forall j' q', nth_error pts2 j' = Some q' ->
                     (fst q' = fst p \/ snd q' = snd p) -> (j <= j')%nat).
Proof.
  intros H. apply find_common_points_Some in H as (-> & -> & _ & _). split.
  - intros i. rewrite common_loop_In_1. split.
    + intros (k & p & -> & Hp & Hne). simpl.
      destruct (np_where_rows (eq_broadcast pts2 p)) as [|j rest] eqn:Hw; [contradiction|].
      assert (Hj : In j (np_where_rows (eq_broadcast pts2 p))) by (rewrite Hw; left; reflexivity).
      apply np_where_rows_eq_broadcast in Hj as (q & Hq & Hc).
      exists p, q. repeat split; auto. eapply nth_error_In; eassumption.
    + intros (p & q & Hp & Hq & Hc). exists i, p. repeat split; auto.
      destruct (In_nth_error _ _ Hq) as (j & Hj).
      assert (Hin : In j (np_where_rows (eq_broadcast pts2 p))).
      { apply np_where_rows_eq_broadcast. exists q. auto. }
      intros E. rewrite E in Hin. exact Hin.
  - intros k i j Hi Hj.
    assert (Hin : In (i, j) (combine (fst (common_loop 0 pts1 pts2))
                                    (snd (common_loop 0 pts1 pts2)))).
    { apply (nth_error_In _ k). rewrite nth_error_combine, Hi, Hj. reflexivity. }
    apply common_loop_pairs in Hin as (k' & p & rest & -> & Hp & Hw).
    assert (Hj0 : In j (np_where_rows (eq_broadcast pts2 p))) by (rewrite Hw; left; reflexivity).
    apply np_where_rows_eq_broadcast in Hj0 as (q & Hq & Hc).
    exists p, q. repeat split; auto.
    intros j' q' Hq' Hc'. apply (where_rows_from_head 0 _ _ _ Hw).
    apply np_where_rows_eq_broadcast. exists q'. auto.
Qed.

Lemma find_common_points_shared_coordinate_witness :
  (forall i, In i [0%nat] <->
     exists p q, nth_error [(1, 2)] i = Some p /\ In q [(1, 5); (7, 8)] /\
                 (fst q = fst p \/ snd q = snd p)) /\
  (forall k i j, nth_error [0%nat] k = Some i -> nth_error [0%nat] k = Some j ->
     exists p q, nth_error [(1, 2)] i = Some p /\ nth_error [(1, 5); (7, 8)] j = Some q /\
       (fst q = fst p \/ snd q = snd p) /\
       forall j' q', nth_error [(1, 5); (7, 8)] j' = Some q' ->
                     (fst q' = fst p \/ snd q' = snd p) -> (j <= j')%nat).
Proof.
  apply (find_common_points_shared_coordinate
           [(1, 2)] [(1, 5); (7, 8)] [(5, 6); (9, 9)] [0%nat] [0%nat] [(7, 8)] [(9, 9)]).
  unfold find_common_points. simpl. decide_reals. reflexivity.
Defined.

Lemma where_from_sorted k m :
  StronglySorted lt (where_from k m) /\ Forall (le k) (where_from k m).
Proof.
  revert k. induction m as [|b m IH]; intros k; simpl.
  - split; constructor.
  - destruct (IH (S k)) as (Hs & Hf).
    assert (Hf' : Forall (le k) (where_from (S k) m)).
    { eapply Forall_impl; [|exact Hf]. simpl. intros; lia. }
    destruct b; simpl; [|auto]. split; constructor; auto.
Qed.

(** X3.  When the two arrays of the new pair have the same length, the two
    arrays returned as novel are the rows of the two inputs at one and the
    same increasing list of indices, the indices that are not known: the
    novel observations stay aligned between the two views and keep their
    order. *)
Theorem find_common_points_novel_aligned pts1 pts2 pts3 cm1 cm2 m1 m2 :
  length pts3 = length pts2 ->
  find_common_points pts1 pts2 pts3 = Some (cm1, cm2, m1, m2) ->
  exists idx,
    StronglySorted lt idx /\
    (forall j, In j idx <-> (j < length pts2)%nat /\ ~ In j cm2) /\
    take pts2 idx = Some m1 /\ take pts3 idx = Some m2 /\
    length m1 = length idx /\ length m2 = length idx.
Proof.
  intros Hlen H. apply find_common_points_Some in H as (_ & _ & H2 & H3).
  apply masked_rest_Some in H2 as (mask & Hmask & Hm1).
  apply masked_rest_Some in H3 as (mask3 & Hmask3 & Hm2).
  assert (E : mask3 = mask).
  { unfold mask_rows in *. rewrite (mask_false_same_length pts3 pts2 Hlen) in Hmask3.
    congruence. }
  subst mask3. exists (unmasked mask).
  split; [apply where_from_sorted|].
  split; [intros j; apply (unmasked_In pts2 cm2 mask j Hmask)|].
  split; [exact Hm1|]. split; [exact Hm2|].
  split; eapply take_length; eassumption.
Qed.

Lemma find_common_points_novel_aligned_witness :
  exists idx,
    StronglySorted lt idx /\
    (forall j, In j idx <-> (j < length [(1, 2); (7, 8)])%nat /\ ~ In j [0%nat]) /\
    take [(1, 2); (7, 8)] idx = Some [(7, 8)] /\
    take [(5, 6); (9, 9)] idx = Some [(9, 9)] /\
    length [(7, 8)] = length idx /\ length [(9, 9)] = length idx.
Proof.
  apply (find_common_points_novel_aligned
           [(1, 2)] [(1, 2); (7, 8)] [(5, 6); (9, 9)] [0%nat] [0%nat] [(7, 8)] [(9, 9)]).
  - reflexivity.
  - unfold find_common_points. simpl. decide_reals. reflexivity.
Defined.

Lemma where_rows_from_none k m :
  Forall (fun ab => fst ab = false /\ snd ab = false) m -> where_rows_from k m = [].
Proof.
  intros H. revert k. induction H as [|[a b] m (Ha & Hb) _ IH]; intros k; simpl.
  - reflexivity.
  - simpl in Ha, Hb. subst. simpl. apply IH.
Qed.

Lemma common_loop_none i pts1 pts2 :
  (forall p q, In p pts1 -> In q pts2 -> fst q <> fst p /\ snd q <> snd p) ->
  common_loop i pts1 pts2 = ([], []).
Proof.
  revert i. induction pts1 as [|p rest IH]; intros i H; simpl; [reflexivity|].
  rewrite IH by (intros p' q Hp Hq; apply H; [right|]; assumption).
  unfold np_where_rows. rewrite where_rows_from_none; [reflexivity|].
  unfold eq_broadcast. apply Forall_map, Forall_forall. intros q Hq. simpl.
  destruct (H p q (or_introl eq_refl) Hq) as (H1 & H2).
  split; apply Reqb_false; assumption.
Qed.

(** ** Correspondence finder: what the ratio test keeps *)

(** X4.  When every entry of the k = 2 matches is a pair, the kept matches
    are, in the order of the matches, the nearest neighbours of exactly the
    entries that pass the ratio test; an entry that is not a pair makes the
    loop raise. *)
Theorem ratio_test_filter matches :
  (Forall (fun e => length e = 2%nat) matches ->
   ratio_test matches = Some (flat_map nearest_if_unambiguous matches)) /\
  (Exists (fun e => length e <> 2%nat) matches -> ratio_test matches = None).
Proof.
  split.
  - induction 1 as [|e rest He _ IH]; simpl; [reflexivity|].
    destruct e as [|m [|n [|x e]]]; try discriminate.
    rewrite IH. simpl. destruct (Rltb (distance m) (0.70 * distance n)); reflexivity.
  - induction 1 as [e rest He | e rest _ IH]; simpl.
    + destruct e as [|m [|n [|x e]]]; try reflexivity. contradiction He. reflexivity.
    + destruct e as [|m [|n [|x e]]]; try reflexivity. rewrite IH. reflexivity.
Qed.

Lemma ratio_test_filter_witness :
  ratio_test [test_match 0 0; test_match 1 1]
    = Some (flat_map nearest_if_unambiguous [test_match 0 0; test_match 1 1]) /\
  ratio_test [[mkDMatch 1 0 0]] = None.
Proof.
  split.
  - apply (proj1 (ratio_test_filter [test_match 0 0; test_match 1 1])).
    repeat constructor.
  - apply (proj2 (ratio_test_filter [[mkDMatch 1 0 0]])).
    left. discriminate.
Defined.

(** ** Bundle adjuster: packing and unpacking *)



Lemma ravel34_length m : length (ravel34 m) = 12%nat.
Proof. destruct m as [[[[[? ?] ?] ?] [[[? ?] ?] ?]] [[[? ?] ?] ?]]. reflexivity. Qed.

Lemma ravel3_length m : length (ravel3 m) = 9%nat.
Proof. destruct m as [[[[? ?] ?] [[? ?] ?]] [[? ?] ?]]. reflexivity. Qed.










Section Adjuster.

Context (cv : Vision).





End Adjuster.



(** ** Reprojection evaluator: the value it reports *)

(** The squared distance of a projection to its observation. *)
Lemma sum_sqdiff_zero (a b : list pt2) :
  length a = length b ->
  let s := sum_R (map (fun pq => sq (fst (fst pq) - fst (snd pq))
                                 + sq (snd (fst pq) - snd (snd pq))) (combine a b)) in
  0 <= s /\ (s = 0 <-> a = b).
Proof.
  revert b. induction a as [|[x y] a IH]; intros [|[x' y'] b] Hlen; try discriminate.
  - simpl. split; [lra|]. split; auto.
  - injection Hlen as Hlen. destruct (IH b Hlen) as (Hs & Hz). cbv zeta in *.
    set (rest := sum_R (map (fun pq => sq (fst (fst pq) - fst (snd pq))
                                      + sq (snd (fst pq) - snd (snd pq))) (combine a b))) in *.
    change (0 <= sq (x - x') + sq (y - y') + rest /\
            (sq (x - x') + sq (y - y') + rest = 0 <-> (x, y) :: a = (x', y') :: b)).
    assert (H1 : 0 <= sq (x - x')) by apply Rle_0_sqr.
    assert (H2 : 0 <= sq (y - y')) by apply Rle_0_sqr.
    split; [lra|]. split.
    + intros E. assert (E1 : sq (x - x') = 0) by lra. assert (E2 : sq (y - y') = 0) by lra.
      assert (E3 : rest = 0) by lra.
      apply Rsqr_0_uniq in E1. apply Rsqr_0_uniq in E2. apply Hz in E3.
      f_equal; [f_equal; lra | exact E3].
    + intros E. injection E as -> -> ->.
      assert (E3 : rest = 0) by (apply Hz; reflexivity).
      unfold sq. rewrite E3. ring.
Qed.

Lemma sqrt_sum_sq_le l :
  Forall (fun d => 0 <= d) l -> sqrt (sum_R (map sq l)) <= sum_R l.
Proof.
  intros H.
  assert (P : 0 <= sum_R l /\ 0 <= sum_R (map sq l) /\ sum_R (map sq l) <= sum_R l * sum_R l).
  { induction H as [|d l Hd _ (IH1 & IH2 & IH3)]; unfold sum_R in *; simpl.
    - lra.
    - unfold sq at 1 3. split; [lra|]. split; nra. }
  destruct P as (P1 & P2 & P3).
  rewrite <- (sqrt_square (sum_R l)) by exact P1.
  apply sqrt_le_1; [exact P2 | nra | exact P3].
Qed.

Section Evaluator.

Context (cv : Vision).

(** The parts of a successful call of the evaluator. *)
Lemma reproj_error_Some obj_points image_points transform_matrix K e points :
  reproj_error cv obj_points image_points transform_matrix K = Some (e, points) ->
  points = match obj_points with
           | Homogeneous h => convertPointsFromHomogeneous cv h
           | Cartesian c => c
           end /\
  exists calc,
    projectPoints cv points (Rodrigues_matrix cv (rot_part transform_matrix))
                  (tran_part transform_matrix) K = Some calc /\
    length calc = length image_points /\ calc <> [] /\
    e = sqrt (sum_R (map (fun pq => sq (fst (fst pq) - fst (snd pq))
                                    + sq (snd (fst pq) - snd (snd pq)))
                         (combine calc image_points))) / INR (length calc).
Proof.
  unfold reproj_error. intros H. cbv zeta in H.
  apply bind_Some in H as (calc & Hc & H). apply bind_Some in H as (t & Ht & H).
  unfold norm_L2 in Ht. destruct (Nat.eqb (length calc) (length image_points)) eqn:El;
    [|discriminate].
  apply Nat.eqb_eq in El. injection Ht as <-.
  destruct calc as [|c calc]; [discriminate|]. injection H as <- <-.
  split; [reflexivity|]. exists (c :: calc). repeat split; auto. discriminate.
Qed.

(** X7.  The reported error is never negative, and it is zero exactly when
    every projected point equals its observation. *)
Theorem reproj_error_zero_iff obj_points image_points transform_matrix K e points :
  reproj_error cv obj_points image_points transform_matrix K = Some (e, points) ->
  exists calc,
    projectPoints cv points (Rodrigues_matrix cv (rot_part transform_matrix))
                  (tran_part transform_matrix) K = Some calc /\
    0 <= e /\ (e = 0 <-> calc = image_points).
Proof.
  intros H. apply reproj_error_Some in H as (_ & calc & Hc & Hlen & Hne & ->).
  exists calc. split; [exact Hc|].
  destruct (sum_sqdiff_zero calc image_points Hlen) as (Hs & Hz). cbv zeta in Hs, Hz.
  set (s := sum_R _) in *.
  assert (Hn : 0 < INR (length calc)).
  { apply lt_0_INR. destruct calc; [contradiction | simpl; lia]. }
  assert (Hq : 0 <= sqrt s) by apply sqrt_pos.
  split.
  - apply Rmult_le_pos; [exact Hq|]. left. apply Rinv_0_lt_compat. exact Hn.
  - rewrite <- Hz. split.
    + intros E. apply sqrt_eq_0; [exact Hs|].
      apply (Rmult_eq_compat_r (INR (length calc))) in E.
      unfold Rdiv in E. rewrite Rmult_assoc, Rinv_l, Rmult_1_r, Rmult_0_l in E by lra.
      exact E.
    + intros ->. rewrite sqrt_0. unfold Rdiv. ring.
Qed.

(** X8.  The reported error is at most the mean distance between the
    projected points and their observations. *)
Theorem reproj_error_le_mean_distance
    obj_points image_points transform_matrix K e points :
  reproj_error cv obj_points image_points transform_matrix K = Some (e, points) ->
  exists calc,
    projectPoints cv points (Rodrigues_matrix cv (rot_part transform_matrix))
                  (tran_part transform_matrix) K = Some calc /\
    e <= mean_R (map (fun pq => dist2 (fst pq) (snd pq)) (combine calc image_points)).
Proof.
  intros H. apply reproj_error_Some in H as (_ & calc & Hc & Hlen & Hne & ->).
  exists calc. split; [exact Hc|].
  assert (Hn : 0 < INR (length calc)).
  { apply lt_0_INR. destruct calc; [contradiction | simpl; lia]. }
  unfold mean_R. rewrite length_map, length_combine, <- Hlen, Nat.min_id.
  apply Rmult_le_compat_r; [left; apply Rinv_0_lt_compat; exact Hn|].
  replace (map (fun pq => sq (fst (fst pq) - fst (snd pq)) + sq (snd (fst pq) - snd (snd pq)))
               (combine calc image_points))
    with (map sq (map (fun pq => dist2 (fst pq) (snd pq)) (combine calc image_points))).
  - apply sqrt_sum_sq_le. apply Forall_map, Forall_forall. intros pq _. apply sqrt_pos.
  - rewrite map_map. apply map_ext. intros pq. apply sq_dist2.
Qed.

(** ** Image pyramid *)

Lemma np_int_nat n x : INR n <= x < INR n + 1 -> np_int x = Z.of_nat n.
Proof.
  intros (H1 & H2). unfold np_int.
  assert (0 <= INR n) by apply pos_INR.
  destruct (Rle_dec 0 x) as [_ | Hneg]; [|lra].
  symmetry. apply Int_part_spec. rewrite <- INR_IZR_INZ. lra.
Qed.

Lemma np_int_negative x : x < 0 -> (np_int x <= 0)%Z.
Proof.
  intros Hx. unfold np_int. destruct (Rle_dec 0 x) as [Hpos | _]; [lra|].
  destruct (base_Int_part (- x)) as (_ & Hb).
  assert (Hi : IZR (-1) < IZR (Int_part (- x))) by (simpl; lra).
  apply lt_IZR in Hi. lia.
Qed.

(** X9.  An image is reduced [n] times by [cv2.pyrDown] when the downscale
    factor lies in [2n, 2n + 2), and not at all when the factor is below 2,
    negative factors included. *)
Theorem downscale_image_count (self : ImageLoader cv) image :
  (forall n, INR n <= factor cv self / 2 < INR n + 1 ->
             downscale_image cv self image = Nat.iter n (pyrDown cv) image) /\
  (factor cv self < 2 -> downscale_image cv self image = image).
Proof.
  split.
  - intros n H. unfold downscale_image. rewrite (np_int_nat n _ H), Znat.Nat2Z.id. reflexivity.
  - intros H. unfold downscale_image.
    destruct (Rle_dec 0 (factor cv self)) as [Hpos | Hneg].
    + rewrite (np_int_nat 0 (factor cv self / 2)) by (simpl; lra). reflexivity.
    + assert (Hz : (np_int (factor cv self / 2) <= 0)%Z) by (apply np_int_negative; lra).
      destruct (np_int (factor cv self / 2)); try lia; reflexivity.
Qed.

End Evaluator.

Lemma reproj_error_zero_iff_witness :
  exists calc,
    projectPoints test_vision [(0, 0, 1); (0, 0, 1)]
                  (Rodrigues_matrix test_vision (rot_part (hstack_Rt identity3 zero3)))
                  (tran_part (hstack_Rt identity3 zero3)) identity3 = Some calc /\
    0 <= sqrt (sum_R (map (fun pq => sq (fst (fst pq) - fst (snd pq))
                                     + sq (snd (fst pq) - snd (snd pq)))
                          (combine [(0 / 1, 0 / 1); (0 / 1, 0 / 1)] [(3, 0); (4, 0)])))
         / INR 2 /\
    (sqrt (sum_R (map (fun pq => sq (fst (fst pq) - fst (snd pq))
                                 + sq (snd (fst pq) - snd (snd pq)))
                      (combine [(0 / 1, 0 / 1); (0 / 1, 0 / 1)] [(3, 0); (4, 0)])))
     / INR 2 = 0 <-> calc = [(3, 0); (4, 0)]).
Proof.
  apply (reproj_error_zero_iff test_vision (Cartesian [(0, 0, 1); (0, 0, 1)])
           [(3, 0); (4, 0)] (hstack_Rt identity3 zero3) identity3 _ [(0, 0, 1); (0, 0, 1)]).
  reflexivity.
Defined.

Lemma reproj_error_le_mean_distance_witness :
  exists calc,
    projectPoints test_vision [(0, 0, 1); (0, 0, 1)]
                  (Rodrigues_matrix test_vision (rot_part (hstack_Rt identity3 zero3)))
                  (tran_part (hstack_Rt identity3 zero3)) identity3 = Some calc /\
    sqrt (sum_R (map (fun pq => sq (fst (fst pq) - fst (snd pq))
                                + sq (snd (fst pq) - snd (snd pq)))
                     (combine [(0 / 1, 0 / 1); (0 / 1, 0 / 1)] [(3, 0); (4, 0)])))
    / INR 2
    <= mean_R (map (fun pq => dist2 (fst pq) (snd pq)) (combine calc [(3, 0); (4, 0)])).
Proof.
  apply (reproj_error_le_mean_distance test_vision (Cartesian [(0, 0, 1); (0, 0, 1)])
           [(3, 0); (4, 0)] (hstack_Rt identity3 zero3) identity3 _ [(0, 0, 1); (0, 0, 1)]).
  reflexivity.
Defined.

Lemma downscale_image_count_witness :
  downscale_image test_vision test_loader 7%nat
    = Nat.iter 1 (pyrDown test_vision) 7%nat /\
  downscale_image test_vision (ImageLoader_init test_vision test_K [0%nat] 1) 7%nat
    = 7%nat.
Proof.
  split.
  - apply (proj1 (downscale_image_count test_vision test_loader 7%nat) 1%nat).
    simpl. lra.
  - apply (proj2 (downscale_image_count test_vision
                    (ImageLoader_init test_vision test_K [0%nat] 1) 7%nat)).
    simpl. lra.
Defined.

(** ** Reconstruction driver: what an iteration needs and what it adds *)

Lemma sample_colors_length (cv : Vision) image pts colors :
  sample_colors cv image pts = Some colors -> length colors = length pts.
Proof.
  revert colors. induction pts as [|l pts IH]; simpl; intros colors H.
  - injection H as <-. reflexivity.
  - apply bind_Some in H as (c & _ & H). apply bind_Some in H as (r & Hr & H).
    injection H as <-. simpl. f_equal. auto.
Qed.

Lemma triangulation_Some (cv : Vision) P1 P2 a b a' b' pc :
  triangulation cv P1 P2 a b = Some (a', b', pc) -> a' = a /\ b' = b.
Proof.
  unfold triangulation. intros H. apply bind_Some in H as (raw & _ & H).
  injection H as <- <- _. auto.
Qed.

Section Iteration.

Context (cv : Vision).

(** X10.  An iteration needs a tracked observation: when no observation of
    the shared view carried over from the previous pair shares a coordinate
    with an observation of the new pair, no point is common and the iteration
    raises instead of adding the image. *)
Theorem iteration_needs_common_point ba i s image_2 features_cur features_2 :
  nth_error (image_list cv (img_obj cv s)) (i + 2) = Some image_2 ->
  feature_matching cv (image_1 cv s) (downscale_image cv (img_obj cv s) image_2)
    = Some (features_cur, features_2) ->
  (forall p q, In p (features_1 cv s) -> In q features_cur ->
               fst q <> fst p /\ snd q <> snd p) ->
  iteration cv ba i s = None.
Proof.
  intros Him Hfm Hno. unfold iteration. rewrite Him. cbn [bind]. rewrite Hfm. cbn [bind].
  assert (Hcm : forall r, find_common_points (features_1 cv s) features_cur features_2
                          = Some r -> fst (fst r) = ([], [])).
  { intros [[[c1 c2] m1] m2] Hr. apply find_common_points_Some in Hr as (-> & -> & _).
    rewrite (common_loop_none 0 _ _ Hno). reflexivity. }
  destruct (Nat.eqb i 0).
  - cbn [bind].
    destruct (find_common_points (features_1 cv s) features_cur features_2)
      as [[[[c1 c2] m1] m2]|] eqn:Hr; [|reflexivity].
    specialize (Hcm _ eq_refl). simpl in Hcm. injection Hcm as -> ->. reflexivity.
  - destruct (triangulation cv (pose_0 cv s) (pose_1 cv s) (features_0 cv s)
                            (features_1 cv s)) as [[[f0 f1] pc]|] eqn:Ht; [|reflexivity].
    destruct (triangulation_Some _ _ _ _ _ _ _ _ Ht) as (_ & ->). cbn [bind].
    destruct (find_common_points (features_1 cv s) features_cur features_2)
      as [[[[c1 c2] m1] m2]|] eqn:Hr; [|reflexivity].
    specialize (Hcm _ eq_refl). simpl in Hcm. injection Hcm as -> ->. reflexivity.
Qed.

End Iteration.

Lemma iteration_needs_common_point_witness :
  iteration test_vision true 0 test_state = None.
Proof.
  apply (iteration_needs_common_point test_vision true 0%nat test_state 2%nat
           [(2, 2); (3, 3)] [(1, 1); (2, 2)]).
  - reflexivity.
  - rewrite downscale_image_test. unfold feature_matching. simpl. decide_reals. reflexivity.
  - simpl. intros p q [<- | []] [<- | [<- | []]]; simpl; split; lra.
Defined.

Section Accumulation.

Context (cv : Vision).

(** What a completed iteration appends to the accumulated cloud. *)
Lemma iteration_accumulates ba i s s' :
  projection_keeps_count cv ->
  iteration cv ba i s = Some s' ->
  exists new_points new_colors,
    total_points cv s' = total_points cv s ++ new_points /\
    total_colors cv s' = total_colors cv s ++ new_colors /\
    length new_points = length new_colors /\
    (0 < length new_points)%nat.
Proof.
  intros Hproj H. unfold iteration in H. bind_inv H. injection H as <-. simpl.
  exists l15, x3. split; [reflexivity|]. split; [reflexivity|].
  apply sample_colors_length in E11.
  assert (Hl : length l15 = length l16 /\ (0 < length l15)%nat).
  { destruct ba.
    - bind_inv E10. injection E10 as <- <- <- <- <-.
      match goal with Hr : reproj_error _ (Cartesian _) _ _ _ = Some _ |- _ =>
        apply reproj_error_Some in Hr as (-> & calc & Hc & Hlen & Hne & _) end.
      apply Hproj in Hc. split; [congruence|].
      destruct calc; [contradiction | simpl in Hc; lia].
    - injection E10 as <- <- <- <- <-.
      apply reproj_error_Some in E9 as (-> & calc & Hc & Hlen & Hne & _).
      apply Hproj in Hc. split; [congruence|].
      destruct calc; [contradiction | simpl in Hc; lia]. }
  destruct Hl as (Hl1 & Hl2). split; [congruence | exact Hl2].
Qed.

(** X11.  With a projection that returns one point per object point, an
    iteration that completes appends the same positive number of rows to the
    accumulated points and to the accumulated colours: the two arrays stay
    aligned and every added image contributes at least one point. *)
Theorem iteration_accumulates_aligned ba i s s' :
  projection_keeps_count cv ->
  iteration cv ba i s = Some s' ->
  exists new_points new_colors,
    total_points cv s' = total_points cv s ++ new_points /\
    total_colors cv s' = total_colors cv s ++ new_colors /\
    length new_points = length new_colors /\
    (0 < length new_points)%nat.
Proof. exact (iteration_accumulates ba i s s'). Qed.

(** X12.  Every completed iteration appends twelve values to the trajectory:
    the projection matrix built from the pose that PnP returned.  Without
    bundle adjustment this is the projection matrix kept for the next
    iteration; with bundle adjustment the kept matrix is built from the
    refined pose and the trajectory still holds the unrefined one. *)
Theorem iteration_appends_pnp_pose ba i s s' :
  iteration cv ba i s = Some s' ->
  exists obj img aux rot tran img' obj' aux',
    solve_PnP cv obj img (K cv (img_obj cv s)) zeros5 aux false
      = Some (rot, tran, img', obj', aux') /\
    pose_array cv s'
      = pose_array cv s ++ ravel34 (matmul34 (K cv (img_obj cv s)) (hstack_Rt rot tran)) /\
    length (pose_array cv s') = (length (pose_array cv s) + 12)%nat /\
    length (errors cv s') = S (length (errors cv s)) /\
    (ba = false -> pose_1 cv s' = matmul34 (K cv (img_obj cv s)) (hstack_Rt rot tran)).
Proof.
  intros H. unfold iteration in H. bind_inv H. injection H as <-. simpl.
  exists x2, x0, x1, m, p, l9, l8, l7. split; [exact E6|]. split; [reflexivity|].
  split; [rewrite length_app, ravel34_length; reflexivity|].
  split; [rewrite length_app; simpl; lia|].
  intros ->. injection E10 as <- <- <- <- <-. reflexivity.
Qed.



Lemma iteration_shape ba i s s' :
  iteration cv ba i s = Some s' ->
  length (pose_array cv s') = (length (pose_array cv s) + 12)%nat /\
  length (errors cv s') = S (length (errors cv s)).
Proof.
  intros H. unfold iteration in H. bind_inv H. injection H as <-. simpl.
  rewrite !length_app, ravel34_length. simpl. split; lia.
Qed.

Lemma bootstrap_shape self s :
  bootstrap cv self = Some s ->
  (2 <= length (image_list cv self))%nat /\
  length (pose_array cv s) = 33%nat /\ errors cv s = [] /\
  total_points cv s = [zero3] /\ total_colors cv s = [zero3].
Proof.
  unfold bootstrap. intros H. bind_inv H. injection H as <-. simpl.
  split.
  - assert (1 < length (image_list cv self))%nat; [|lia].
    apply nth_error_Some. congruence.
  - rewrite !length_app, !ravel34_length, ravel3_length. auto.
Qed.

Lemma loop_shape ba n i s s' :
  loop cv ba n i s = Some s' ->
  exists k,
    (k <= n)%nat /\
    length (pose_array cv s') = (length (pose_array cv s) + 12 * k)%nat /\
    length (errors cv s') = (length (errors cv s) + k)%nat /\
    ((forall j, quit_pressed cv j = false) -> k = n).
Proof.
  revert i s. induction n as [|n IH]; intros i s H; simpl in H.
  - injection H as <-. exists 0%nat. repeat split; auto; lia.
  - apply bind_Some in H as (s1 & H1 & H).
    destruct (iteration_shape ba i s s1 H1) as (Hp & He).
    destruct (quit_pressed cv i) eqn:Hq.
    + injection H as <-. exists 1%nat. repeat split; try lia.
      intros Hall. rewrite Hall in Hq. discriminate.
    + destruct (IH (S i) s1 H) as (k & Hk & Hp' & He' & Hall).
      exists (S k). repeat split; try lia. intros Hno. rewrite (Hall Hno). reflexivity.
Qed.

Lemma loop_accumulates ba n i s s' :
  projection_keeps_count cv ->
  loop cv ba n i s = Some s' ->
  exists new_points new_colors,
    total_points cv s' = total_points cv s ++ new_points /\
    total_colors cv s' = total_colors cv s ++ new_colors /\
    length new_points = length new_colors.
Proof.
  intros Hproj. revert i s. induction n as [|n IH]; intros i s H; simpl in H.
  - injection H as <-. exists [], []. rewrite !app_nil_r. auto.
  - apply bind_Some in H as (s1 & H1 & H).
    destruct (iteration_accumulates ba i s s1 Hproj H1)
      as (p1 & c1 & Hp1 & Hc1 & Hl1 & _).
    destruct (quit_pressed cv i).
    + injection H as <-. exists p1, c1. auto.
    + destruct (IH (S i) s1 H) as (p2 & c2 & Hp2 & Hc2 & Hl2).
      exists (p1 ++ p2), (c1 ++ c2). rewrite Hp2, Hc2, Hp1, Hc1, !app_assoc, !length_app.
      auto.
Qed.

End Accumulation.

(** ** The whole run *)




Section Run.

Context (cv : Vision).

(** X14.  A run that returns had at least two images; its trajectory holds
    the 9 intrinsics, the 24 values of the first two projection matrices and
    12 values for each image added by the loop, one reprojection error being
    recorded per added image; the loop adds at most all the remaining images,
    and all of them when the key [q] is never pressed. *)
Theorem call_trajectory_length self ba s ply traj :
  call cv self ba = Some (s, ply, traj) ->
  (2 <= length (image_list cv self))%nat /\
  length traj = (33 + 12 * length (errors cv s))%nat /\
  (length (errors cv s) <= length (image_list cv self) - 2)%nat /\
  ((forall j, quit_pressed cv j = false) ->
   length (errors cv s) = (length (image_list cv self) - 2)%nat).
Proof.
  intros H. unfold call in H.
  apply bind_Some in H as (s0 & Hb & H). apply bind_Some in H as (s1 & Hl & H).
  apply bind_Some in H as (p & _ & H). injection H as <- <- <-.
  destruct (bootstrap_shape cv _ _ Hb) as (H2 & Hp & He & _).
  destruct (loop_shape cv _ _ _ _ _ Hl) as (k & Hk & Hp' & He' & Hall).
  rewrite He in He'. simpl in He'. rewrite He', Hp', Hp.
  repeat split; auto.
Qed.

(** X15.  With a projection that returns one point per object point, the
    export cannot fail once the first two views and the loop have succeeded:
    the accumulated points and colours have the same number of rows.  Both
    accumulators begin with the zero row they were created with, so the
    origin, coloured black, is always part of the cloud that is filtered and
    written. *)
Theorem call_exports_aligned_cloud self ba s0 s :
  projection_keeps_count cv ->
  bootstrap cv self = Some s0 ->
  loop cv ba (length (image_list cv self) - 2) 0 s0 = Some s ->
  exists new_points new_colors ply,
    total_points cv s = zero3 :: new_points /\
    total_colors cv s = zero3 :: new_colors /\
    length new_points = length new_colors /\
    call cv self ba = Some (s, ply, pose_array cv s).
Proof.
  intros Hproj Hb Hl.
  destruct (bootstrap_shape cv _ _ Hb) as (_ & _ & _ & Hp0 & Hc0).
  destruct (loop_accumulates cv _ _ _ _ _ Hproj Hl) as (np & nc & Hp & Hc & Hlen).
  rewrite Hp0 in Hp. rewrite Hc0 in Hc. simpl in Hp, Hc.
  destruct (save_to_ply_returns (total_points cv s) (total_colors cv s)) as (ply & Hply).
  { rewrite Hp, Hc. simpl. congruence. }
  exists np, nc, ply. repeat split; auto.
  unfold call. rewrite Hb. cbn [bind]. rewrite Hl. cbn [bind]. rewrite Hply. reflexivity.
Qed.

End Run.

(** *** The extras on the test camera *)

Lemma test_projection_keeps_count : projection_keeps_count test_vision.
Proof.
  intros obj rvec tvec K calc H. simpl in H. injection H as <-. apply length_map.
Qed.

Lemma iteration_test ba :
  exists s0 s1, bootstrap test_vision test_loader = Some s0 /\
                iteration test_vision ba 0 s0 = Some s1.
Proof.
  destruct (loop_test ba) as (s0 & s & Hb & Hl & _).
  simpl in Hl. apply bind_Some in Hl as (s1 & H1 & _). eauto.
Qed.

Lemma iteration_accumulates_aligned_witness :
  exists s s' new_points new_colors,
    iteration test_vision true 0 s = Some s' /\
    total_points test_vision s' = total_points test_vision s ++ new_points /\
    total_colors test_vision s' = total_colors test_vision s ++ new_colors /\
    length new_points = length new_colors /\
    (0 < length new_points)%nat.
Proof.
  destruct (iteration_test true) as (s0 & s1 & _ & H1).
  destruct (iteration_accumulates_aligned test_vision true 0%nat s0 s1
              test_projection_keeps_count H1) as (np & nc & H).
  exists s0, s1, np, nc. split; [exact H1 | exact H].
Defined.

Lemma iteration_appends_pnp_pose_witness :
  exists s s' obj img aux rot tran img' obj' aux',
    iteration test_vision false 0 s = Some s' /\
    solve_PnP test_vision obj img (K test_vision (img_obj test_vision s)) zeros5 aux false
      = Some (rot, tran, img', obj', aux') /\
    pose_array test_vision s'
      = pose_array test_vision s
        ++ ravel34 (matmul34 (K test_vision (img_obj test_vision s)) (hstack_Rt rot tran)) /\
    length (pose_array test_vision s') = (length (pose_array test_vision s) + 12)%nat /\
    length (errors test_vision s') = S (length (errors test_vision s)) /\
    (false = false ->
     pose_1 test_vision s'
     = matmul34 (K test_vision (img_obj test_vision s)) (hstack_Rt rot tran)).
Proof.
  destruct (iteration_test false) as (s0 & s1 & _ & H1).
  destruct (iteration_appends_pnp_pose test_vision false 0%nat s0 s1 H1)
    as (obj & img & aux & rot & tran & img' & obj' & aux' & H).
  exists s0, s1, obj, img, aux, rot, tran, img', obj', aux'. split; [exact H1 | exact H].
Defined.


Lemma call_trajectory_length_witness :
  exists s ply traj,
    call test_vision test_loader true = Some (s, ply, traj) /\
    (2 <= length (image_list test_vision test_loader))%nat /\
    length traj = (33 + 12 * length (errors test_vision s))%nat /\
    (length (errors test_vision s) <= length (image_list test_vision test_loader) - 2)%nat /\
    ((forall j, quit_pressed test_vision j = false) ->
     length (errors test_vision s) = (length (image_list test_vision test_loader) - 2)%nat).
Proof.
  destruct (call_test true) as (s & ply & traj & Hc). exists s, ply, traj.
  split; [exact Hc|].
  exact (call_trajectory_length test_vision test_loader true s ply traj Hc).
Defined.

Lemma call_exports_aligned_cloud_witness :
  exists s new_points new_colors ply,
    total_points test_vision s = zero3 :: new_points /\
    total_colors test_vision s = zero3 :: new_colors /\
    length new_points = length new_colors /\
    call test_vision test_loader true = Some (s, ply, pose_array test_vision s).
Proof.
  destruct (loop_test true) as (s0 & s & Hb & Hl & _).
  destruct (call_exports_aligned_cloud test_vision test_loader true s0 s
              test_projection_keeps_count Hb Hl) as (np & nc & ply & H).
  exists s, np, nc, ply. exact H.
Defined.
